(** * The request dispatcher of [CoreInstance] (src/core/instance.ts)

    A shallow embedding of the three entry points [remoteRequest],
    [eventRequest] and [httpRequest], of the lifecycle loops [activate] and
    [release], and of the container state machine that guards them.

    The collaborators of the dispatcher (dependency container, metadata
    registry, security provider, service hooks and handlers) are taken as an
    environment [Env]; their side effects act on an abstract [World].
    Exceptions and the mutable fields of the instance are modelled by a small
    state-and-error monad [M]; the calls the dispatcher makes to its
    collaborators are recorded in a trace.

    A request is modelled as running to its end without interleaving: the
    [istate] field is private, and every public method of the instance
    rejects a call that arrives while a request is in flight, so nothing
    else writes the field between the guard and the final reset. *)

From stdpp Require Import base option list strings gmap.
From Stdlib Require Import ZArith.

Local Open Scope string_scope.
Local Open Scope list_scope.

(** ** Values, errors and outcomes *)

(** [ContainerState] of ../types. *)
Inductive ContainerState := Pending | Ready | Reserved | Busy.

#[global] Instance ContainerState_eq_dec : EqDecision ContainerState.
Proof. solve_decision. Defined.

(** JavaScript values, as far as the dispatcher looks into them. *)
#[local] Unset Elimination Schemes.
Inductive Value :=
| VUndefined
| VNull
| VBool (b : bool)
| VNum (n : Z)
| VStr (s : string)
| VObj (fields : list (string * Value)).
#[local] Set Elimination Schemes.

(** Truthiness, as used by [||] and [if]. *)
Definition truthy (v : Value) : bool :=
  match v with
  | VUndefined | VNull => false
  | VBool b => b
  | VNum n => negb (n =? 0)%Z
  | VStr s => negb (String.eqb s "")
  | VObj _ => true
  end.

(** The errors the dispatcher builds itself, and whatever a collaborator
    throws. *)
Inductive Error :=
| InternalServerError (msg : string)
| NotFound (msg : string)
| TypeError (msg : string)
| Thrown (v : Value).

Inductive Outcome (A : Type) :=
| Return (a : A)
| Throw (e : Error).
Arguments Return {A} a.
Arguments Throw {A} e.

(** Template-literal rendering of a possibly undefined string. *)
Definition js_str (o : option string) : string :=
  match o with Some s => s | None => "undefined" end.

(** A string is truthy when it is defined and not empty. *)
Definition truthy_str (o : option string) : bool :=
  match o with Some s => negb (String.eqb s "") | None => false end.

(** Association-list objects: property read and write. *)
Fixpoint obj_get (fields : list (string * Value)) (k : string) : Value :=
  match fields with
  | [] => VUndefined
  | (k', v) :: rest => if String.eqb k' k then v else obj_get rest k
  end.

Fixpoint obj_set (fields : list (string * Value)) (k : string) (x : Value)
  : list (string * Value) :=
  match fields with
  | [] => [(k, x)]
  | (k', v) :: rest =>
      if String.eqb k' k then (k', x) :: rest else (k', v) :: obj_set rest k x
  end.

(** [v.k]: reading a property of [undefined] or [null] is a TypeError, a
    primitive has no own properties. *)
Definition get_field (v : Value) (k : string) : Outcome Value :=
  match v with
  | VUndefined | VNull => Throw (TypeError ("Cannot read property " +:+ k))
  | VObj fields => Return (obj_get fields k)
  | _ => Return VUndefined
  end.

(** [v.k = x] in strict mode: only objects take properties. *)
Definition set_field (v : Value) (k : string) (x : Value) : Outcome Value :=
  match v with
  | VObj fields => Return (VObj (obj_set fields k x))
  | _ => Throw (TypeError ("Cannot set property " +:+ k))
  end.

(** ** Requests and results (../types) *)

Record Auth := { renewed : bool; token : string }.

(** The per-request context of the security provider; [None] is a null
    context. *)
Record ContextData := { auth : Auth; principal : Value }.
Definition Context := option ContextData.

Record RemoteRequest := {
  rr_application : string;
  rr_service : string;
  rr_method : string;
  rr_args : list Value
}.

Record EventRequest := {
  er_type : option string;
  er_source : string;
  er_resource : string;
  er_action : string;
  er_object : string;
  er_records : list Value;
  er_record : option Value;
  er_application : option string;
  er_service : option string;
  er_method : option string
}.

Inductive EventStatus := OK | FAILED | NOP.

Record EventReturn := {
  ret_service : string;
  ret_method : string;
  ret_error : option Error;
  ret_data : option Value
}.

Record EventResult := {
  status : option EventStatus;
  res_source : string;
  res_action : string;
  res_resource : string;
  res_object : string;
  returns : list EventReturn
}.

Record HttpContentType := { ct_value : string; domainModel : option string }.

Record HttpRequest := {
  hr_type : option string;
  httpMethod : string;
  hr_resource : string;
  hr_contentType : HttpContentType;
  pathParameters : option (list (string * string));
  queryStringParameters : option (list (string * string));
  hr_application : option string;
  hr_service : option string;
  hr_method : option string
}.

(** The declared content type of a method: a MIME string, or the
    [HttpResponse] sentinel of ../types that marks a handler returning a
    complete response. *)
Inductive ContentType := HttpResponse | Mime (s : string).

(** The calls the dispatcher makes, in order. *)
Inductive LogEntry :=
| Debug (msg : string)
| ErrorLog (e : Error)
| ErrorMsg (msg : string)
| TimeEnd (label : string).

Inductive Event :=
| Log (l : LogEntry)
| ContainerGet (sid : string)
| AuthCall (kind : string)
| ActivateHook (sid : string)
| ReleaseHook (sid : string)
| Invoke (service method : string).

(** ** Projections of the trace *)

Definition released (tr : list Event) : list string :=
  omap (fun e => match e with ReleaseHook sid => Some sid | _ => None end) tr.

Definition invocations (tr : list Event) : list (string * string) :=
  omap (fun e => match e with Invoke sv m => Some (sv, m) | _ => None end) tr.

Definition lookups (tr : list Event) : list string :=
  omap (fun e => match e with ContainerGet sid => Some sid | _ => None end) tr.

Definition logged_errors (tr : list Event) : list Error :=
  omap (fun e => match e with Log (ErrorLog x) => Some x | _ => None end) tr.

Section Model.

(** The state of everything outside the dispatcher. *)
Context {World : Type}.

(** An effectful call into a collaborator. *)
Definition Ext (A : Type) : Type := World -> Outcome A * World.

Inductive Arg :=
| AVal (v : Value)
| ACtx (c : Context)
| AEvent (r : EventRequest)
| AHttp (r : HttpRequest).

Definition Handler : Type := list Arg -> Ext Value.

(** A service instance of the container: the optional lifecycle hooks and
    the methods found by name ([service[name]]). *)
Record Service := {
  sv_activate : option (Context -> Ext unit);
  sv_release : option (Context -> Ext unit);
  sv_method : string -> option Handler
}.

Record HttpRouteMetadata := {
  code : Z;
  http_adapter :
    option (Handler -> Context -> HttpRequest ->
            list (string * string) -> list (string * string) -> Ext Value)
}.

Record HttpBinding := {
  binder : option (Context -> HttpRequest -> Outcome Value)
}.

Record MethodMetadata := {
  mm_name : string;
  contentType : option ContentType;
  bindings : list HttpBinding;
  http : gmap string HttpRouteMetadata
}.

Record EventFilter := { actionFilter : string; objectFilter : string }.

Record EventMetadata := {
  em_service : string;
  em_method : string;
  em_adapter : option (Handler -> Context -> EventRequest -> Ext Value);
  em_route : gmap string EventFilter
}.

Record RouteMetadata := { rt_service : string; rt_method : string }.

(** The registry [Metadata]: [services] lists the keys of
    [Metadata.services] in the order [for .. in] visits them. *)
Record MetadataRegistry := {
  services : list string;
  methods : gmap string MethodMetadata;
  events : gmap string (list EventMetadata);
  routes : gmap string RouteMetadata
}.

Record Security := {
  remoteAuth : RemoteRequest -> MethodMetadata -> Ext Context;
  eventAuth : EventRequest -> option MethodMetadata -> Ext Context;
  httpAuth : HttpRequest -> option MethodMetadata -> Ext Context
}.

(** What a [CoreInstance] is built from and talks to.  [wrap] is
    [InternalServerError.wrap], [wildcardMatch] is [Utils.wildcardMatch]
    and [httpUtilsRequest] is [HttpUtils.request]; their modules are not
    part of the dispatcher. *)
Record Env := {
  application : string;
  container : gmap string Service;
  Metadata : MetadataRegistry;
  security : Security;
  resources : option (gmap string string);
  wrap : Error -> Error;
  wildcardMatch : string -> string -> bool;
  httpUtilsRequest : HttpRequest -> Outcome HttpRequest
}.

(** ** The state and the monad *)

(** The mutable store: the [istate] field of the instance, the world of
    the collaborators, the trace of calls, and the two objects that
    [eventRequest] mutates in place (the caller's request and the result
    under construction). *)
Record State := mkState {
  istate : ContainerState;
  world : World;
  trace : list Event;
  ev_req : EventRequest;
  ev_result : EventResult
}.

Definition M (A : Type) : Type := State -> Outcome A * State.

Definition ret {A} (a : A) : M A := fun s => (Return a, s).

Definition bind {A B} (m : M A) (k : A -> M B) : M B :=
  fun s => match m s with
           | (Return a, s') => k a s'
           | (Throw e, s') => (Throw e, s')
           end.

Definition throw {A} (e : Error) : M A := fun s => (Throw e, s).

(** [try { body } catch (e) { handler e }] *)
Definition try_catch {A} (body : M A) (handler : Error -> M A) : M A :=
  fun s => match body s with
           | (Return a, s') => (Return a, s')
           | (Throw e, s') => handler e s'
           end.

(** [try { body } finally { fin }]: an exception of [fin] replaces the
    outcome of [body]. *)
Definition try_finally {A} (body : M A) (fin : M unit) : M A :=
  fun s => match body s with
           | (o, s') => match fin s' with
                        | (Return _, s'') => (o, s'')
                        | (Throw e, s'') => (Throw e, s'')
                        end
           end.

Definition try_catch_finally {A} (body : M A) (handler : Error -> M A)
    (fin : M unit) : M A :=
  try_finally (try_catch body handler) fin.

Definition lift_outcome {A} (o : Outcome A) : M A := fun s => (o, s).

End Model.

Declare Scope dispatch_scope.
Delimit Scope dispatch_scope with M.
Notation "x ← y ; z" := (bind y (fun x => z))
  (at level 20, y at level 100, z at level 200, only parsing) : dispatch_scope.
Notation "y ;; z" := (bind y (fun _ => z))
  (at level 100, z at level 200, only parsing, right associativity)
  : dispatch_scope.

Local Open Scope dispatch_scope.

Section Dispatcher.

Context {World : Type}.
Variable env : @Env World.

Abbreviation M := (@M World).
Abbreviation State := (@State World).
Abbreviation Ext := (@Ext World).
Abbreviation Handler := (@Handler World).
Abbreviation Service := (@Service World).
Abbreviation MethodMetadata := (@MethodMetadata World).
Abbreviation HttpRouteMetadata := (@HttpRouteMetadata World).
Abbreviation EventMetadata := (@EventMetadata World).

(** ** Primitive operations on the store *)

Definition get_istate : M ContainerState := fun s => (Return (istate s), s).

Definition set_istate (c : ContainerState) : M unit :=
  fun s => (Return tt,
            mkState c (world s) (trace s) (ev_req s) (ev_result s)).

Definition emit (e : Event) : M unit :=
  fun s => (Return tt,
            mkState (istate s) (world s) (trace s ++ [e]) (ev_req s)
              (ev_result s)).

(** Running a collaborator on the world. *)
Definition call {A} (f : Ext A) : M A :=
  fun s => match f (world s) with
           | (o, w) =>
               (o, mkState (istate s) w (trace s) (ev_req s) (ev_result s))
           end.

Definition get_req : M EventRequest := fun s => (Return (ev_req s), s).

Definition modify_req (f : EventRequest -> EventRequest) : M unit :=
  fun s => (Return tt,
            mkState (istate s) (world s) (trace s) (f (ev_req s))
              (ev_result s)).

Definition get_result : M EventResult := fun s => (Return (ev_result s), s).

Definition modify_result (f : EventResult -> EventResult) : M unit :=
  fun s => (Return tt,
            mkState (istate s) (world s) (trace s) (ev_req s)
              (f (ev_result s))).

(** ** Logger

    Modelled from the spec: the logger of ../logger is absent; it is side
    effect only and never affects control flow.  [log.error(e)] records
    [e] and hands it back, which is what [throw this.log.error(e)] relies
    on. *)
Definition log_debug (msg : string) : M unit := emit (Log (Debug msg)).

Definition log_error (e : Error) : M Error :=
  emit (Log (ErrorLog e));; ret e.

Definition log_error_msg (msg : string) : M unit := emit (Log (ErrorMsg msg)).

Definition log_timeEnd (label : string) : M unit := emit (Log (TimeEnd label)).

(** [throw this.log.error(e)] *)
Definition throw_logged {A} (e : Error) : M A :=
  e' ← log_error e; throw e'.

(** [this.container.get(sid)]: a plain lookup. *)
Definition container_get (sid : string) : M (option Service) :=
  emit (ContainerGet sid);; ret (container env !! sid).

(** ** Lifecycle: [activate] and [release] *)

Definition activate_service (sid : string) (ctx : Context) : M unit :=
  service ← container_get sid;
  try_catch
    (match service with
     | None => throw (TypeError "Cannot read property activate")
     | Some sv =>
         match sv_activate sv with
         | Some hook => emit (ActivateHook sid);; call (hook ctx)
         | None => ret tt
         end
     end)
    (fun e =>
       log_error_msg ("Failed to activate service: [" +:+ sid +:+ "]");;
       log_error e;;
       throw e).

Fixpoint activate_loop (sids : list string) (ctx : Context) : M unit :=
  match sids with
  | [] => ret tt
  | sid :: rest => activate_service sid ctx;; activate_loop rest ctx
  end.

Definition activate (ctx : Context) : M Context :=
  activate_loop (services (Metadata env)) ctx;; ret ctx.

Definition release_service (sid : string) (ctx : Context) : M unit :=
  service ← container_get sid;
  try_catch
    (match service with
     | None => throw (TypeError "Cannot read property release")
     | Some sv =>
         match sv_release sv with
         | Some hook => emit (ReleaseHook sid);; call (hook ctx)
         | None => ret tt
         end
     end)
    (fun e =>
       log_error_msg ("Failed to release service: [" +:+ sid +:+ "]");;
       log_error e;;
       ret tt).

Fixpoint release_loop (sids : list string) (ctx : Context) : M unit :=
  match sids with
  | [] => ret tt
  | sid :: rest => release_service sid ctx;; release_loop rest ctx
  end.

Definition release (ctx : Context) : M unit :=
  release_loop (services (Metadata env)) ctx.

(** The services whose [release] hook the release loop calls. *)
Definition has_release (sid : string) : bool :=
  match container env !! sid with
  | Some sv => match sv_release sv with Some _ => true | None => false end
  | None => false
  end.

Definition release_hooks : list string :=
  List.filter has_release (services (Metadata env)).

(** ** The state guard shared by the three entry points *)

Definition state (s : State) : ContainerState := istate s.

Definition guard_ready {A} (body : M A) : M A :=
  st ← get_istate;
  if bool_decide (st ≠ Ready)
  then throw (InternalServerError "Invalid container state")
  else body.

(** [handler.apply(service, args)] where [handler] may be undefined. *)
Definition invoke (service method : string) (handler : option Handler)
    (args : list Arg) : M Value :=
  match handler with
  | None => throw (TypeError "Cannot read property apply")
  | Some h => emit (Invoke service method);; call (h args)
  end.

(** ** remoteRequest *)

(** Route resolution and authentication of a remote call: everything
    between [try {] and the inner [try {]. *)
Definition remote_resolve (req : RemoteRequest)
  : M (Service * MethodMetadata * Context) :=
  log_debug "Remote Request";;
  (if bool_decide (rr_application req ≠ application env)
   then throw_logged (NotFound ("Application not found ["
                                +:+ rr_application req +:+ "]"))
   else ret tt);;
  service ← container_get (rr_service req);
  match service with
  | None => throw_logged (NotFound ("Service not found ["
                                    +:+ rr_service req +:+ "]"))
  | Some service =>
      let methodId := rr_service req +:+ "." +:+ rr_method req in
      match methods (Metadata env) !! methodId with
      | None => throw_logged (NotFound ("Method not found ["
                                        +:+ methodId +:+ "]"))
      | Some metadata =>
          set_istate Busy;;
          emit (AuthCall "remote");;
          ctx ← call (remoteAuth (security env) req metadata);
          ret (service, metadata, ctx)
      end
  end.

(** The body of the inner [try]: activation, then the handler. *)
Definition remote_body (req : RemoteRequest) (service : Service)
    (metadata : MethodMetadata) (ctx : Context) : M Value :=
  activate ctx;;
  let handler := sv_method service (mm_name metadata) in
  invoke (rr_service req) (mm_name metadata) handler
    (map AVal (rr_args req)).

Definition remote_invoke (req : RemoteRequest) (service : Service)
    (metadata : MethodMetadata) (ctx : Context) : M Value :=
  try_catch_finally
    (remote_body req service metadata ctx)
    (fun e => throw_logged e)
    (log_timeEnd (mm_name metadata);; release ctx).

Definition remoteRequest (req : RemoteRequest) : M Value :=
  guard_ready (
    set_istate Reserved;;
    try_finally
      (r ← remote_resolve req;
       let '(service, metadata, ctx) := r in
       remote_invoke req service metadata ctx)
      (set_istate Ready)).

(** ** eventRequest *)

(** In-place updates of the request and of the result. *)
Definition set_type (t : string) (r : EventRequest) : EventRequest :=
  {| er_type := Some t; er_source := er_source r;
     er_resource := er_resource r; er_action := er_action r;
     er_object := er_object r; er_records := er_records r;
     er_record := er_record r; er_application := er_application r;
     er_service := er_service r; er_method := er_method r |}.

Definition set_target (app service method : string) (r : EventRequest)
  : EventRequest :=
  {| er_type := er_type r; er_source := er_source r;
     er_resource := er_resource r; er_action := er_action r;
     er_object := er_object r; er_records := er_records r;
     er_record := er_record r; er_application := Some app;
     er_service := Some service; er_method := Some method |}.

Definition set_record (record : Value) (r : EventRequest) : EventRequest :=
  {| er_type := er_type r; er_source := er_source r;
     er_resource := er_resource r; er_action := er_action r;
     er_object := er_object r; er_records := er_records r;
     er_record := Some record; er_application := er_application r;
     er_service := er_service r; er_method := er_method r |}.

Definition new_result (req : EventRequest) : EventResult :=
  {| status := None; res_source := er_source req;
     res_action := er_action req; res_resource := er_resource req;
     res_object := er_object req; returns := [] |}.

Definition set_status (st : EventStatus) (r : EventResult) : EventResult :=
  {| status := Some st; res_source := res_source r;
     res_action := res_action r; res_resource := res_resource r;
     res_object := res_object r; returns := returns r |}.

(** [result.status = result.status || dflt] *)
Definition default_status (dflt : EventStatus) (r : EventResult)
  : EventResult :=
  match status r with
  | Some _ => r
  | None => set_status dflt r
  end.

(** [result.returns.push(entry)] *)
Definition push_return (entry : EventReturn) (r : EventResult)
  : EventResult :=
  {| status := status r; res_source := res_source r;
     res_action := res_action r; res_resource := res_resource r;
     res_object := res_object r; returns := returns r ++ [entry] |}.

Definition success_entry (target : EventMetadata) (data : Value)
  : EventReturn :=
  {| ret_service := em_service target; ret_method := em_method target;
     ret_error := None; ret_data := Some data |}.

Definition failure_entry (target : EventMetadata) (e : Error)
  : EventReturn :=
  {| ret_service := em_service target; ret_method := em_method target;
     ret_error := Some (wrap env e); ret_data := None |}.

(** The call made for one record: the adapter of the target on the bound
    handler, or the handler itself.  [Invoke] records that this call is
    made; what an adapter does with the handler it is given is part of the
    adapter. *)
Definition invoke_event (target : EventMetadata) (service : Service)
    (ctx : Context) (req : EventRequest) : M Value :=
  let handler := sv_method service (em_method target) in
  match em_adapter target with
  | Some adapter =>
      match handler with
      | None => throw (TypeError "Cannot read property bind")
      | Some h =>
          emit (Invoke (em_service target) (em_method target));;
          call (adapter h ctx req)
      end
  | None =>
      invoke (em_service target) (em_method target) handler
        [ACtx ctx; AEvent req]
  end.

(** The call for one record: [req.record = record], then the handler. *)
Definition record_call (target : EventMetadata) (service : Service)
    (ctx : Context) (record : Value) : M Value :=
  modify_req (set_record record);;
  req ← get_req;
  invoke_event target service ctx req.

(** [for (let record of req.records) { .. }] *)
Fixpoint record_loop (target : EventMetadata) (service : Service)
    (ctx : Context) (records : list Value) : M unit :=
  match records with
  | [] => ret tt
  | record :: rest =>
      data ← record_call target service ctx record;
      modify_result (default_status OK);;
      modify_result (push_return (success_entry target data));;
      record_loop target service ctx rest
  end.

(** The body of the [try] of one target: activation, then the records. *)
Definition target_body (target : EventMetadata) (service : Service)
    (ctx : Context) : M unit :=
  activate ctx;;
  req ← get_req;
  record_loop target service ctx (er_records req).

(** The [try .. catch .. finally] of one target. *)
Definition run_target (target : EventMetadata) (service : Service)
    (ctx : Context) : M unit :=
  try_catch_finally
    (target_body target service ctx)
    (fun e =>
       log_error e;;
       modify_result (set_status FAILED);;
       modify_result (push_return (failure_entry target e)))
    (log_timeEnd (em_method target);; release ctx).

(** The head of one iteration of [for (let target of metadatas)]: service
    lookup, filters and authentication.  [None] stands for [continue]. *)
Definition event_resolve (route : string) (target : EventMetadata)
  : M (option (Service * Context)) :=
  service ← container_get (em_service target);
  match service with
  | None =>
      req ← get_req;
      throw_logged (NotFound ("Service not found ["
                              +:+ js_str (er_service req) +:+ "]"))
  | Some service =>
      let methodId := em_service target +:+ "." +:+ em_method target in
      let method := methods (Metadata env) !! methodId in
      match em_route target !! route with
      | None => throw (TypeError "Cannot read property actionFilter")
      | Some filter =>
          req ← get_req;
          if negb (wildcardMatch env (actionFilter filter) (er_action req))
             || negb (wildcardMatch env (objectFilter filter)
                        (er_object req))
          then ret None
          else
            modify_req (set_target (application env) (em_service target)
                          (em_method target));;
            req ← get_req;
            emit (AuthCall "event");;
            ctx ← call (eventAuth (security env) req method);
            ret (Some (service, ctx))
      end
  end.

Definition event_target (route : string) (target : EventMetadata) : M unit :=
  r ← event_resolve route target;
  match r with
  | None => ret tt
  | Some (service, ctx) => run_target target service ctx
  end.

Fixpoint event_loop (route : string) (metadatas : list EventMetadata)
  : M unit :=
  match metadatas with
  | [] => ret tt
  | target :: rest => event_target route target;; event_loop route rest
  end.

(** [this.config.resources && this.config.resources[req.resource]],
    rendered in a template literal. *)
Definition alias_of (resource : string) : string :=
  match resources env with
  | None => "undefined"
  | Some m => js_str (m !! resource)
  end.

(** The route key that is used and its registrations: the alias key is
    tried when the first key has none. *)
Definition resolve_event (req : EventRequest)
  : string * option (list EventMetadata) :=
  let route := er_source req +:+ " " +:+ er_resource req in
  match events (Metadata env) !! route with
  | Some metadatas => (route, Some metadatas)
  | None =>
      let route := er_source req +:+ " " +:+ alias_of (er_resource req) in
      (route, events (Metadata env) !! route)
  end.

(** Route resolution of an event and the fresh result object. *)
Definition event_init (req : EventRequest)
  : M (string * list EventMetadata) :=
  modify_req (fun _ => set_type "event" req);;
  log_debug "Event Request";;
  req ← get_req;
  match resolve_event req with
  | (route, None) =>
      throw_logged (NotFound ("Event handler not found [" +:+ route
                              +:+ "] [" +:+ er_object req +:+ "]"))
  | (route, Some metadatas) =>
      modify_result (fun _ => new_result req);;
      set_istate Busy;;
      ret (route, metadatas)
  end.

Definition eventRequest (req : EventRequest) : M EventResult :=
  guard_ready (
    set_istate Reserved;;
    try_finally
      (r ← event_init req;
       let '(route, metadatas) := r in
       event_loop route metadatas;;
       modify_result (default_status NOP);;
       get_result)
      (set_istate Ready)).

(** ** httpRequest *)

Definition http_set_type (t : string) (r : HttpRequest) : HttpRequest :=
  {| hr_type := Some t; httpMethod := httpMethod r;
     hr_resource := hr_resource r; hr_contentType := hr_contentType r;
     pathParameters := pathParameters r;
     queryStringParameters := queryStringParameters r;
     hr_application := hr_application r; hr_service := hr_service r;
     hr_method := hr_method r |}.

Definition http_set_target (app service method : string) (r : HttpRequest)
  : HttpRequest :=
  {| hr_type := hr_type r; httpMethod := httpMethod r;
     hr_resource := hr_resource r; hr_contentType := hr_contentType r;
     pathParameters := pathParameters r;
     queryStringParameters := queryStringParameters r;
     hr_application := Some app; hr_service := Some service;
     hr_method := Some method |}.

Definition http_route (req : HttpRequest) : string :=
  let route := httpMethod req +:+ " " +:+ hr_resource req in
  if truthy_str (domainModel (hr_contentType req))
  then route +:+ ":" +:+ js_str (domainModel (hr_contentType req))
  else route.

(** [args[index] = arg.binder ? arg.binder(ctx, req) : undefined] *)
Fixpoint bind_args (bs : list HttpBinding) (ctx : Context) (req : HttpRequest)
  : M (list Arg) :=
  match bs with
  | [] => ret []
  | b :: rest =>
      v ← match binder b with
          | Some f => lift_outcome (f ctx req)
          | None => ret VUndefined
          end;
      vs ← bind_args rest ctx req;
      ret (AVal v :: vs)
  end.

(** [method.contentType || "application/json"] *)
Definition declared_content_type (m : MethodMetadata) : ContentType :=
  match contentType m with
  | None | Some (Mime "") => Mime "application/json"
  | Some ct => ct
  end.

(** [if (contentType !== HttpResponse) result = { statusCode, body,
    contentType }] *)
Definition normalize (ct : ContentType) (statusCode : Z) (result : Value)
  : Value :=
  match ct with
  | HttpResponse => result
  | Mime s =>
      VObj [("statusCode", VNum statusCode); ("body", result);
            ("contentType", VStr s)]
  end.

(** [ctx && ctx.auth.renewed && ctx.auth.token] *)
Definition renewed_token (ctx : Context) : option string :=
  match ctx with
  | Some c =>
      if renewed (auth c) && negb (String.eqb (token (auth c)) "")
      then Some (token (auth c)) else None
  | None => None
  end.

(** [result.headers = result.headers || {};
     result.headers["Token"] = ctx.auth.token] *)
Definition set_token_header (tok : string) (result : Value)
  : Outcome Value :=
  match get_field result "headers" with
  | Throw e => Throw e
  | Return headers =>
      let headers := if truthy headers then headers else VObj [] in
      match set_field result "headers" headers with
      | Throw e => Throw e
      | Return result =>
          match set_field headers "Token" (VStr tok) with
          | Throw e => Throw e
          | Return headers => set_field result "headers" headers
          end
      end
  end.

Definition inject_token (ctx : Context) (result : Value) : Outcome Value :=
  match renewed_token ctx with
  | Some tok => set_token_header tok result
  | None => Return result
  end.

(** The handler call of the HTTP path: the adapter of the route on the
    bound handler, or the handler on the bound arguments. *)
Definition invoke_http (target : RouteMetadata) (service : Service)
    (m : MethodMetadata) (h : HttpRouteMetadata) (ctx : Context)
    (req : HttpRequest) : M Value :=
  let handler := sv_method service (mm_name m) in
  match http_adapter h with
  | Some adapter =>
      match handler with
      | None => throw (TypeError "Cannot read property bind")
      | Some hd =>
          emit (Invoke (rt_service target) (mm_name m));;
          call (adapter hd ctx req (default [] (pathParameters req))
                  (default [] (queryStringParameters req)))
      end
  | None =>
      args ← bind_args (bindings m) ctx req;
      invoke (rt_service target) (mm_name m) handler args
  end.

(** Route resolution and authentication of an HTTP request. *)
Definition http_resolve (req : HttpRequest)
  : M (string * RouteMetadata * Service * option MethodMetadata
       * HttpRequest * Context) :=
  let req := http_set_type "http" req in
  log_debug "HTTP Event";;
  req ← lift_outcome (httpUtilsRequest env req);
  let route := http_route req in
  match routes (Metadata env) !! route with
  | None => throw_logged (NotFound ("Route not found [" +:+ route +:+ "]"))
  | Some target =>
      service ← container_get (rt_service target);
      match service with
      | None => throw_logged (NotFound ("Service not found ["
                                        +:+ js_str (hr_service req) +:+ "]"))
      | Some service =>
          let methodId := rt_service target +:+ "." +:+ rt_method target in
          let method := methods (Metadata env) !! methodId in
          let req := http_set_target (application env) (rt_service target)
                       (rt_method target) req in
          set_istate Busy;;
          emit (AuthCall "http");;
          ctx ← call (httpAuth (security env) req method);
          ret (route, target, service, method, req, ctx)
      end
  end.

(** Activation and the handler call, up to the handler's return value. *)
Definition http_call (route : string) (target : RouteMetadata)
    (service : Service) (method : option MethodMetadata) (ctx : Context)
    (req : HttpRequest) : M (MethodMetadata * HttpRouteMetadata * Value) :=
  activate ctx;;
  log_debug "HTTP Context";;
  log_debug "HTTP Request";;
  match method with
  | None => throw (TypeError "Cannot read property name")
  | Some m =>
      match http m !! route with
      | None => throw (TypeError "Cannot read property adapter")
      | Some h =>
          result ← invoke_http target service m h ctx req;
          ret (m, h, result)
      end
  end.

(** The body of the inner [try]. *)
Definition http_body (route : string) (target : RouteMetadata)
    (service : Service) (method : option MethodMetadata) (ctx : Context)
    (req : HttpRequest) : M Value :=
  r ← http_call route target service method ctx req;
  let '(m, h, result) := r in
  let result := normalize (declared_content_type m) (code h) result in
  result ← lift_outcome (inject_token ctx result);
  log_debug "Response";;
  ret result.

Definition http_invoke (route : string) (target : RouteMetadata)
    (service : Service) (method : option MethodMetadata) (ctx : Context)
    (req : HttpRequest) : M Value :=
  try_catch_finally
    (http_body route target service method ctx req)
    (fun e => log_error e;; throw (wrap env e))
    (match method with
     | None => throw (TypeError "Cannot read property name")
     | Some m => log_timeEnd (mm_name m)
     end;;
     release ctx).

Definition httpRequest (req : HttpRequest) : M Value :=
  guard_ready (
    set_istate Reserved;;
    try_finally
      (r ← http_resolve req;
       let '(route, target, service, method, req, ctx) := r in
       http_invoke route target service method ctx req)
      (set_istate Ready)).

(** ** Shapes of the returns list *)

(** An error, if any, sits in the last entry of the block. *)
Definition error_only_last (block : list EventReturn) : Prop :=
  forall i entry,
    block !! i = Some entry -> ret_error entry <> None ->
    S i = length block.

(** The entries one target contributes when the request has [n] records:
    null-error entries for the records handled, then at most one entry
    with an error, after which no record is handled. *)
Definition target_block (n : nat) (target : EventMetadata)
    (block : list EventReturn) : Prop :=
  exists datas,
    (block = map (success_entry target) datas /\ length datas <= n)
    \/ (exists e,
           block = map (success_entry target) datas
                   ++ [failure_entry target e]
           /\ (datas = [] \/ length datas < n)).

(** How the status of a result relates to its entries while the targets
    are processed, and once the result is returned. *)
Definition status_inv (r : EventResult) : Prop :=
  match status r with
  | None => returns r = []
  | Some OK =>
      returns r <> [] /\ Forall (fun en => ret_error en = None) (returns r)
  | Some FAILED => Exists (fun en => ret_error en <> None) (returns r)
  | Some NOP => False
  end.

Definition status_final (r : EventResult) : Prop :=
  match status r with
  | None => False
  | Some OK =>
      returns r <> [] /\ Forall (fun en => ret_error en = None) (returns r)
  | Some FAILED => Exists (fun en => ret_error en <> None) (returns r)
  | Some NOP => returns r = []
  end.

(** ** Notions used to state the properties *)

(** The store right after the guard, when [istate] has become Reserved. *)
Definition reserved (s : State) : State := snd (set_istate Reserved s).

(** A computation that leaves the projection [f] of the store as it was. *)
Definition preserves {A X} (f : State -> X) (m : M A) : Prop :=
  forall s, f (snd (m s)) = f s.

(** A target that the loop passes over: its service resolves and one of
    its filters rejects the request. *)
Definition filtered_out (route : string) (req : EventRequest)
    (target : EventMetadata) : Prop :=
  is_Some (container env !! em_service target)
  /\ exists filter,
      em_route target !! route = Some filter
      /\ wildcardMatch env (actionFilter filter) (er_action req)
         && wildcardMatch env (objectFilter filter) (er_object req)
         = false.

(** What the [catch] clause of [httpRequest] makes of an outcome. *)
Definition surface (o : Outcome Value) : Outcome Value :=
  match o with
  | Return v => Return v
  | Throw e => Throw (wrap env e)
  end.

End Dispatcher.

(** ** Concrete environments, used to run the model *)

Module Demo.

(** The world counts the calls made into the collaborators. *)
Definition tick {A} (a : A) : @Ext nat A := fun w => (Return a, S w).
Definition fail {A} (msg : string) : @Ext nat A :=
  fun w => (Throw (Thrown (VStr msg)), S w).

Definition hook (fails : bool) (msg : string) : Context -> @Ext nat unit :=
  fun _ => if fails then fail msg else tick tt.

Definition database (activate_fails release_fails : bool) : @Service nat :=
  {| sv_activate := Some (hook activate_fails "connect failed");
     sv_release := Some (hook release_fails "close failed");
     sv_method := fun _ => None |}.

Definition greeter : @Service nat :=
  {| sv_activate := None;
     sv_release := None;
     sv_method := fun name =>
       if String.eqb name "hello" then Some (fun _ => tick (VStr "hi"))
       else if String.eqb name "boom" then Some (fun _ => fail "boom")
       else None |}.

Definition hello_method : @MethodMetadata nat :=
  {| mm_name := "hello"; contentType := None; bindings := [];
     http := {[ "GET /hello" := {| code := 200%Z; http_adapter := None |} ]} |}.

Definition any_filter : EventFilter :=
  {| actionFilter := "*"; objectFilter := "*" |}.

Definition target (method : string) : @EventMetadata nat :=
  {| em_service := "greeter"; em_method := method; em_adapter := None;
     em_route := {[ "queue orders" := any_filter ]} |}.

Definition no_context : @Ext nat Context := tick None.

Definition demo_env (activate_fails release_fails : bool)
    (targets : list (@EventMetadata nat)) : @Env nat :=
  {| application := "shop";
     container := {[ "database" := database activate_fails release_fails;
                     "greeter" := greeter ]};
     Metadata := {| services := ["database"; "greeter"];
                    methods := {[ "greeter.hello" := hello_method ]};
                    events := {[ "queue orders" := targets ]};
                    routes := {[ "GET /hello" :=
                                   {| rt_service := "greeter";
                                      rt_method := "hello" |} ]} |};
     security := {| remoteAuth := fun _ _ => no_context;
                    eventAuth := fun _ _ => no_context;
                    httpAuth := fun _ _ => no_context |};
     resources := None;
     wrap := fun e =>
       match e with
       | Thrown _ | TypeError _ =>
           InternalServerError "Internal Server Error"
       | _ => e
       end;
     wildcardMatch := fun p s => String.eqb p "*" || String.eqb p s;
     httpUtilsRequest := fun r => Return r |}.

Definition order_event (records : list Value) : EventRequest :=
  {| er_type := None; er_source := "queue"; er_resource := "orders";
     er_action := "created"; er_object := "order-1"; er_records := records;
     er_record := None; er_application := None; er_service := None;
     er_method := None |}.

Definition ready : @State nat :=
  {| istate := Ready; world := 0; trace := [];
     ev_req := order_event [];
     ev_result := new_result (order_event []) |}.

Definition hello_call : RemoteRequest :=
  {| rr_application := "shop"; rr_service := "greeter";
     rr_method := "hello"; rr_args := [] |}.

Definition hello_http : HttpRequest :=
  {| hr_type := None; httpMethod := "GET"; hr_resource := "/hello";
     hr_contentType := {| ct_value := "text/plain"; domainModel := None |};
     pathParameters := None; queryStringParameters := None;
     hr_application := None; hr_service := None; hr_method := None |}.

Definition foreign_call : RemoteRequest :=
  {| rr_application := "bank"; rr_service := "greeter";
     rr_method := "hello"; rr_args := [] |}.

Definition refund_event : EventRequest :=
  {| er_type := None; er_source := "queue"; er_resource := "refunds";
     er_action := "created"; er_object := "refund-1"; er_records := [VNum 1];
     er_record := None; er_application := None; er_service := None;
     er_method := None |}.

Definition picky_target : @EventMetadata nat :=
  {| em_service := "greeter"; em_method := "hello"; em_adapter := None;
     em_route := {[ "queue orders" :=
                      {| actionFilter := "deleted"; objectFilter := "*" |} ]}
  |}.

(** The store while the targets of an event are processed. *)
Definition during (records : list Value) : @State nat :=
  {| istate := Busy; world := 0; trace := [];
     ev_req := order_event records;
     ev_result := new_result (order_event records) |}.

Definition busy : @State nat :=
  {| istate := Busy; world := 0; trace := [];
     ev_req := order_event [];
     ev_result := new_result (order_event []) |}.

(** The shop with no event target, with a database whose [release] hook
    throws, and with a database whose [activate] hook throws. *)
Definition shop : @Env nat := demo_env false false [].
Definition shop_connect_fails : @Env nat :=
  demo_env true false [target "hello"].

(** The shop with one throwing target, with a succeeding and a throwing
    target, and with a target whose filter rejects every order event. *)
Definition shop_boom : @Env nat := demo_env false false [target "boom"].
Definition shop_hello_boom : @Env nat :=
  demo_env false false [target "hello"; target "boom"].
Definition shop_picky : @Env nat := demo_env false false [picky_target].

Definition boom_error : Error := Thrown (VStr "boom").

End Demo.

(** ** The instance before it serves: the constructor, [register],
    [publish], [prepare] and [get] *)

(** The two services [prepare] looks for in the container. *)
Inductive CoreId := ConfigurationId | SecurityId.

(** What [prepare] does besides changing the fields of the instance. *)
Inductive SetupEvent :=
| Warned (msg : string)
| ContainerHas (id : CoreId)
| ContainerSet (id : CoreId)
| ContainerLookup (id : CoreId)
| ConfigurationInit (app : string).

(** More projections of the trace of calls. *)
Definition auth_calls (tr : list Event) : list string :=
  omap (fun e => match e with AuthCall kind => Some kind | _ => None end) tr.

(** The fields of a result that echo the request. *)
Definition result_header (r : EventResult)
  : string * string * string * string :=
  (res_source r, res_action r, res_resource r, res_object r).

(** Hook and handler calls, in the order they were made. *)
Definition lifecycle (tr : list Event) : list Event :=
  omap (fun e => match e with
                 | ActivateHook _ | ReleaseHook _ | Invoke _ _ => Some e
                 | _ => None
                 end) tr.

Section Instance.

Context {World : Type}.

Abbreviation M := (@M World).
Abbreviation State := (@State World).
Abbreviation Ext := (@Ext World).
Abbreviation Service := (@Service World).
Abbreviation Security := (@Security World).
Abbreviation Env := (@Env World).

(** The object [this.container.get(Configuration)] yields, as [prepare]
    and the requests look at it: whether it is a [CoreConfiguration],
    whether [ServiceMetadata.has] knows it, its [init] and its
    [resources]. *)
Record ConfigurationService := {
  cfg_core : bool;
  cfg_service : bool;
  cfg_init : string -> Ext unit;
  cfg_resources : option (gmap string string)
}.

(** The object [this.container.get(Security)] yields. *)
Record SecurityService := {
  sec_core : bool;
  sec_service : bool;
  sec_provider : Security
}.

(** The container as [prepare] uses it: [Container.has(id)],
    [this.container.set({ id, type })] with the default type, and
    [this.container.get(id)]. *)
Record Setup := {
  container_has : CoreId -> World -> bool;
  container_set_default : CoreId -> Ext unit;
  get_configuration : Ext ConfigurationService;
  get_security : Ext SecurityService
}.

(** A [CoreInstance]: the constructor arguments, the store of the
    dispatcher (with [istate]), the fields [config] and [security], and
    the record of what [prepare] did. *)
Record Instance := mkInstance {
  inst_application : string;
  inst_name : string;
  inst_store : State;
  inst_config : option ConfigurationService;
  inst_security : option SecurityService;
  inst_setup : list SetupEvent
}.

(** No event request has been seen yet. *)
Definition blank_event : EventRequest :=
  {| er_type := None; er_source := ""; er_resource := ""; er_action := "";
     er_object := ""; er_records := []; er_record := None;
     er_application := None; er_service := None; er_method := None |}.

(** [constructor(application, name, index?)]: [CoreInstance.name] is the
    name of the class. *)
Definition new_instance (application : string) (name index : option string)
    (w : World) : Instance :=
  let name := if truthy_str name then js_str name else "CoreInstance" in
  let name := match index with
              | Some ix => name +:+ ":" +:+ ix
              | None => name
              end in
  {| inst_application := application;
     inst_name := name;
     inst_store := mkState Pending w [] blank_event
                     (Build_EventResult None "" "" "" "" []);
     inst_config := None;
     inst_security := None;
     inst_setup := [] |}.

(** The monad of the methods that change the instance itself. *)
Definition IM (A : Type) : Type := Instance -> Outcome A * Instance.

Definition iret {A} (a : A) : IM A := fun i => (Return a, i).

Definition ibind {A B} (m : IM A) (k : A -> IM B) : IM B :=
  fun i => match m i with
           | (Return a, i') => k a i'
           | (Throw e, i') => (Throw e, i')
           end.

Definition ithrow {A} (e : Error) : IM A := fun i => (Throw e, i).

Definition with_store (st : State) (i : Instance) : Instance :=
  mkInstance (inst_application i) (inst_name i) st (inst_config i)
    (inst_security i) (inst_setup i).

(** A computation of the dispatcher, run on the store of the instance. *)
Definition on_store {A} (m : M A) : IM A :=
  fun i => match m (inst_store i) with
           | (o, st) => (o, with_store st i)
           end.

Definition note (e : SetupEvent) : IM unit :=
  fun i => (Return tt,
            mkInstance (inst_application i) (inst_name i) (inst_store i)
              (inst_config i) (inst_security i) (inst_setup i ++ [e])).

Definition set_config (c : ConfigurationService) : IM unit :=
  fun i => (Return tt,
            mkInstance (inst_application i) (inst_name i) (inst_store i)
              (Some c) (inst_security i) (inst_setup i)).

Definition set_security (sp : SecurityService) : IM unit :=
  fun i => (Return tt,
            mkInstance (inst_application i) (inst_name i) (inst_store i)
              (inst_config i) (Some sp) (inst_setup i)).

Definition read_instance : IM Instance := fun i => (Return i, i).

End Instance.

Declare Scope instance_scope.
Notation "x ← y ; z" := (ibind y (fun x => z))
  (at level 20, y at level 100, z at level 200, only parsing)
  : instance_scope.
Notation "y ;; z" := (ibind y (fun _ => z))
  (at level 100, z at level 200, only parsing, right associativity)
  : instance_scope.

Section Preparation.

Local Open Scope instance_scope.

Context {World : Type}.
Variable setup : @Setup World.

Abbreviation IM := (@IM World).

(** [if (this.istate !== ContainerState.Pending) throw ..] *)
Definition guard_pending {A} (body : IM A) : IM A :=
  st ← on_store get_istate;
  if bool_decide (st ≠ Pending)
  then ithrow (InternalServerError "Invalid container state")
  else body.

(** [register(target)] and [publish(target)] return [this]. *)
Definition register {T} (target : T) : IM unit := guard_pending (iret tt).

Definition publish {T} (target : T) : IM unit := guard_pending (iret tt).

(** [if (!Container.has(id)) { this.log.warn(msg);
     this.container.set({ id, type }) }] *)
Definition ensure_default (id : CoreId) (msg : string) : IM unit :=
  note (ContainerHas id);;
  i ← read_instance;
  if container_has setup id (world (inst_store i))
  then iret tt
  else
    note (Warned msg);;
    note (ContainerSet id);;
    on_store (call (container_set_default setup id)).

Definition prepare : IM unit :=
  guard_pending (
    ensure_default ConfigurationId "Using default configuration service!";;
    note (ContainerLookup ConfigurationId);;
    config ← on_store (call (get_configuration setup));
    set_config config;;
    (if cfg_core config
     then
       i ← read_instance;
       note (ConfigurationInit (inst_application i));;
       on_store (call (cfg_init config (inst_application i)))
     else if negb (cfg_service config)
     then ithrow (InternalServerError "Configuration must be a service")
     else iret tt);;
    ensure_default SecurityId "Using default security service!";;
    note (ContainerLookup SecurityId);;
    security ← on_store (call (get_security setup));
    set_security security;;
    (if sec_core security
     then iret tt
     else if negb (sec_service security)
     then ithrow (InternalServerError "Security must be a service")
     else iret tt);;
    on_store (set_istate Ready)).

(** The fields the requests dereference are set once the instance has
    left Pending. *)
Definition configured (i : @Instance World) : Prop :=
  istate (inst_store i) <> Pending ->
  is_Some (inst_config i) /\ is_Some (inst_security i).

End Preparation.

Section Serving.

Local Open Scope dispatch_scope.

Context {World : Type} {Class : Type}.
Variable env : @Env World.

(** [ProxyMetadata.get(type)] and [ServiceMetadata.get(type)], as far as
    [get] reads them: the alias of the metadata found, if any. *)
Variable proxy_alias : Class -> option string.
Variable service_alias : Class -> option string.

(** [get(type)] *)
Definition get (type : string + Class) : @M World (option (@Service World)) :=
  match type with
  | inl id => container_get env id
  | inr cls =>
      match proxy_alias cls with
      | Some alias => container_get env alias
      | None =>
          match service_alias cls with
          | Some alias => container_get env alias
          | None => ret None
          end
      end
  end.

(** The services whose [activate] hook the activation loop calls. *)
Definition has_activate (sid : string) : bool :=
  match container env !! sid with
  | Some sv => match sv_activate sv with Some _ => true | None => false end
  | None => false
  end.

Definition activate_hooks : list string :=
  List.filter has_activate (services (Metadata env)).

(** A series of requests served one after the other. *)
Inductive Request :=
| RemoteCall (req : RemoteRequest)
| EventCall (req : EventRequest)
| HttpCall (req : HttpRequest).

Inductive Response :=
| RemoteResponse (o : Outcome Value)
| EventResponse (o : Outcome EventResult)
| HttpResponseOf (o : Outcome Value).

Definition serve (r : Request) (s : @State World) : Response * @State World :=
  match r with
  | RemoteCall req =>
      match remoteRequest env req s with (o, s') => (RemoteResponse o, s') end
  | EventCall req =>
      match eventRequest env req s with (o, s') => (EventResponse o, s') end
  | HttpCall req =>
      match httpRequest env req s with (o, s') => (HttpResponseOf o, s') end
  end.

Fixpoint serve_all (rs : list Request) (s : @State World)
  : list Response * @State World :=
  match rs with
  | [] => ([], s)
  | r :: rest =>
      match serve r s with
      | (o, s') =>
          match serve_all rest s' with
          | (os, s'') => (o :: os, s'')
          end
      end
  end.

(** The answer of the state guard. *)
Definition state_error_of (r : Request) : Response :=
  let e := InternalServerError "Invalid container state" in
  match r with
  | RemoteCall _ => RemoteResponse (Throw e)
  | EventCall _ => EventResponse (Throw e)
  | HttpCall _ => HttpResponseOf (Throw e)
  end.

End Serving.

(** ** Concrete instances and environments for the setup and for the
    edge cases of the dispatcher *)

Module Scenario.

Import Demo.

Definition core_configuration : @ConfigurationService nat :=
  {| cfg_core := true; cfg_service := true;
     cfg_init := fun _ => tick tt; cfg_resources := None |}.

(** An object that is neither a [CoreConfiguration] nor a service. *)
Definition plain_configuration : @ConfigurationService nat :=
  {| cfg_core := false; cfg_service := false;
     cfg_init := fun _ => tick tt; cfg_resources := None |}.

Definition core_security : @SecurityService nat :=
  {| sec_core := true; sec_service := true; sec_provider := security shop |}.

(** A container that holds a Security service and, when [registered], a
    Configuration; [found] is what the lookup of Configuration yields. *)
Definition office (registered : bool) (found : @ConfigurationService nat)
  : @Setup nat :=
  {| container_has := fun id _ =>
       match id with ConfigurationId => registered | SecurityId => true end;
     container_set_default := fun _ => tick tt;
     get_configuration := tick found;
     get_security := tick core_security |}.

Definition fresh : @Instance nat := new_instance "shop" None None 0.

(** An instance that has left Pending. *)
Definition opened : @Instance nat := with_store ready fresh.

(** The shop with other registrations. *)
Definition variant (sids : list string) (targets : list (@EventMetadata nat))
    (rts : gmap string RouteMetadata) (sec : @Security nat) : @Env nat :=
  {| application := "shop";
     container := container shop;
     Metadata := {| services := sids;
                    methods := methods (Metadata shop);
                    events := {[ "queue orders" := targets ]};
                    routes := rts |};
     security := sec;
     resources := None;
     wrap := wrap shop;
     wildcardMatch := wildcardMatch shop;
     httpUtilsRequest := httpUtilsRequest shop |}.

Definition ghost_target : @EventMetadata nat :=
  {| em_service := "ghost"; em_method := "hello"; em_adapter := None;
     em_route := {[ "queue orders" := any_filter ]} |}.

(** Routes and an event target that name a service the container does not
    hold, and a route to a method without metadata. *)
Definition shop_ghost : @Env nat :=
  variant ["database"; "greeter"] [target "hello"; ghost_target]
    {[ "GET /ghost" := {| rt_service := "ghost"; rt_method := "hello" |};
       "GET /boom" := {| rt_service := "greeter"; rt_method := "boom" |} ]}
    (security shop).

(** A registered service id without an instance in the container. *)
Definition shop_unstaffed : @Env nat :=
  variant ["database"; "ghost"; "greeter"] [target "hello"]
    (routes (Metadata shop)) (security shop).

(** A security provider that lets nobody in. *)
Definition shop_locked : @Env nat :=
  variant ["database"; "greeter"] [target "hello"] (routes (Metadata shop))
    {| remoteAuth := fun _ _ => fail "denied";
       eventAuth := fun _ _ => fail "denied";
       httpAuth := fun _ _ => fail "denied" |}.

Definition shop_hello : @Env nat := demo_env false false [target "hello"].

(** The method [hello] with a declared content type, and a security
    provider whose contexts carry a renewed token. *)
Definition typed_hello (ct : option ContentType) : @MethodMetadata nat :=
  {| mm_name := "hello"; contentType := ct; bindings := [];
     http := http hello_method |}.

Definition renewed_context (tok : string) : Context :=
  Some {| auth := {| renewed := true; token := tok |}; principal := VNull |}.

Definition renewing (tok : string) : @Security nat :=
  {| remoteAuth := fun _ _ => tick (renewed_context tok);
     eventAuth := fun _ _ => tick (renewed_context tok);
     httpAuth := fun _ _ => tick (renewed_context tok) |}.

Definition shop_typed (ct : option ContentType) (sec : @Security nat)
  : @Env nat :=
  {| application := "shop";
     container := container shop;
     Metadata := {| services := services (Metadata shop);
                    methods := {[ "greeter.hello" := typed_hello ct ]};
                    events := events (Metadata shop);
                    routes := routes (Metadata shop) |};
     security := sec;
     resources := None;
     wrap := wrap shop;
     wildcardMatch := wildcardMatch shop;
     httpUtilsRequest := httpUtilsRequest shop |}.

Definition stranger_call : RemoteRequest :=
  {| rr_application := "shop"; rr_service := "nobody";
     rr_method := "hello"; rr_args := [] |}.

Definition bye_call : RemoteRequest :=
  {| rr_application := "shop"; rr_service := "greeter";
     rr_method := "bye"; rr_args := [] |}.

Definition http_get (resource : string) (service : option string)
  : HttpRequest :=
  {| hr_type := None; httpMethod := "GET"; hr_resource := resource;
     hr_contentType := {| ct_value := "text/plain"; domainModel := None |};
     pathParameters := None; queryStringParameters := None;
     hr_application := None; hr_service := service; hr_method := None |}.

Definition denied : Error := Thrown (VStr "denied").

(** A response with a header of its own. *)
Definition tagged_response : Value :=
  VObj [("statusCode", VNum 200); ("headers", VObj [("ETag", VStr "abc")])].

(** Two bindings: the first without a binder, the second bound to the
    resource of the request. *)
Definition two_bindings : list HttpBinding :=
  [ {| binder := None |};
    {| binder := Some (fun _ req => Return (VStr (hr_resource req))) |} ].

End Scenario.

Section Theory.

Context {World : Type}.
Variable env : @Env World.

Abbreviation M := (@M World).
Abbreviation State := (@State World).
Abbreviation Ext := (@Ext World).
Abbreviation Service := (@Service World).
Abbreviation MethodMetadata := (@MethodMetadata World).
Abbreviation EventMetadata := (@EventMetadata World).

(** *** Running the combinators *)

Lemma bind_return {A B} (m : M A) (k : A -> M B) s a s' :
  m s = (Return a, s') -> bind m k s = k a s'.
Proof. intros H. unfold bind. now rewrite H. Qed.

Lemma bind_throw {A B} (m : M A) (k : A -> M B) s e s' :
  m s = (Throw e, s') -> bind m k s = (Throw e, s').
Proof. intros H. unfold bind. now rewrite H. Qed.

Lemma try_catch_return {A} (m : M A) h s a s' :
  m s = (Return a, s') -> try_catch m h s = (Return a, s').
Proof. intros H. unfold try_catch. now rewrite H. Qed.

Lemma try_catch_throw {A} (m : M A) h s e s' :
  m s = (Throw e, s') -> try_catch m h s = h e s'.
Proof. intros H. unfold try_catch. now rewrite H. Qed.

Lemma try_finally_run {A} (m : M A) fin s o s' s'' :
  m s = (o, s') -> fin s' = (Return tt, s'') ->
  try_finally m fin s = (o, s'').
Proof. intros H1 H2. unfold try_finally. now rewrite H1, H2. Qed.

(** *** Frame conditions: what a computation leaves alone *)

Lemma preserves_ret {A X} (f : State -> X) (a : A) : preserves f (ret a).
Proof. intros s. reflexivity. Qed.

Lemma preserves_throw {A X} (f : State -> X) e :
  preserves f (throw (A:=A) e).
Proof. intros s. reflexivity. Qed.

Lemma preserves_lift {A X} (f : State -> X) (o : Outcome A) :
  preserves f (lift_outcome o).
Proof. intros s. reflexivity. Qed.

Lemma preserves_bind {A B X} (f : State -> X) (m : M A) (k : A -> M B) :
  preserves f m -> (forall a, preserves f (k a)) -> preserves f (bind m k).
Proof.
  intros Hm Hk s. unfold bind. specialize (Hm s).
  destruct (m s) as [[a|e] s1]; simpl in *.
  - now rewrite Hk.
  - assumption.
Qed.

Lemma preserves_try_catch {A X} (f : State -> X) (m : M A) h :
  preserves f m -> (forall e, preserves f (h e)) ->
  preserves f (try_catch m h).
Proof.
  intros Hm Hh s. unfold try_catch. specialize (Hm s).
  destruct (m s) as [[a|e] s1]; simpl in *.
  - assumption.
  - now rewrite Hh.
Qed.

Lemma preserves_try_finally {A X} (f : State -> X) (m : M A) fin :
  preserves f m -> preserves f fin -> preserves f (try_finally m fin).
Proof.
  intros Hm Hf s. unfold try_finally. specialize (Hm s).
  destruct (m s) as [o s1]. specialize (Hf s1).
  destruct (fin s1) as [[u|e] s2]; simpl in *; congruence.
Qed.

Lemma preserves_call {A X} (f : State -> X) (c : Ext A) :
  (forall s w, f (mkState (istate s) w (trace s) (ev_req s) (ev_result s))
               = f s) ->
  preserves f (call c).
Proof.
  intros H s. unfold call. destruct (c (world s)) as [o w]. apply H.
Qed.

Lemma preserves_emit {X} (f : State -> X) ev :
  (forall s,
      f (mkState (istate s) (world s) (trace s ++ [ev]) (ev_req s)
           (ev_result s)) = f s) ->
  preserves f (emit ev).
Proof. intros H s. apply H. Qed.

(** *** The lifecycle loops *)

Ltac frame_step :=
  first
    [ apply preserves_ret
    | apply preserves_throw
    | apply preserves_lift
    | apply preserves_bind; [| intros ?]
    | apply preserves_try_catch; [| intros ?]
    | apply preserves_try_finally
    | apply preserves_call; intros ? ?; reflexivity
    | apply preserves_emit; intros ?; simpl;
      unfold invocations, released, lookups, logged_errors;
      rewrite ?omap_app; simpl; rewrite ?app_nil_r; reflexivity
    | intros ?; reflexivity
    | match goal with
      | |- preserves _ (match ?x with _ => _ end) => destruct x
      | |- preserves _ (if ?b then _ else _) => destruct b
      end ].

Ltac frame := repeat frame_step.

(** [activate] leaves alone whatever each of its steps leaves alone. *)
Lemma activate_preserves {X} (f : State -> X) ctx :
  (forall sid, preserves f (activate_service env sid ctx)) ->
  preserves f (activate env ctx).
Proof.
  intros Hstep. unfold activate.
  apply preserves_bind; [| intros ?; apply preserves_ret].
  induction (services (Metadata env)) as [| sid rest IH]; simpl.
  - apply preserves_ret.
  - apply preserves_bind; [apply Hstep | intros _; exact IH].
Qed.

Ltac frame_activate :=
  apply activate_preserves; intros sid;
  unfold activate_service, container_get, log_error_msg, log_error; frame.

Lemma activate_invocations ctx :
  preserves (fun s => invocations (trace s)) (activate env ctx).
Proof. frame_activate. Qed.

Lemma activate_released ctx :
  preserves (fun s => released (trace s)) (activate env ctx).
Proof. frame_activate. Qed.

Lemma activate_result ctx : preserves ev_result (activate env ctx).
Proof. frame_activate. Qed.

Lemma activate_req ctx : preserves ev_req (activate env ctx).
Proof. frame_activate. Qed.

(** One step of the release loop: it returns normally whatever the hook
    does, and calls the hook when the service has one. *)
Lemma release_service_spec sid ctx s :
  exists s',
    release_service env sid ctx s = (Return tt, s')
    /\ released (trace s')
       = released (trace s) ++ (if has_release env sid then [sid] else [])
    /\ invocations (trace s') = invocations (trace s)
    /\ istate s' = istate s
    /\ ev_req s' = ev_req s
    /\ ev_result s' = ev_result s.
Proof.
  unfold release_service, has_release, container_get, bind, try_catch, emit,
    ret, call, throw, log_error_msg, log_error, released, invocations.
  simpl.
  destruct (container env !! sid) as [sv |]; simpl.
  - destruct (sv_release sv) as [hook |]; simpl.
    + destruct (hook ctx (world s)) as [[[] | e] w]; simpl;
        eexists; repeat split; simpl;
        rewrite ?omap_app; simpl; rewrite ?app_nil_r, <- ?app_assoc;
        reflexivity.
    + eexists; repeat split; simpl;
        rewrite ?omap_app; simpl; rewrite ?app_nil_r; reflexivity.
  - eexists; repeat split; simpl;
      rewrite ?omap_app; simpl; rewrite ?app_nil_r; reflexivity.
Qed.

Lemma release_loop_spec sids ctx s :
  exists s',
    release_loop env sids ctx s = (Return tt, s')
    /\ released (trace s')
       = released (trace s) ++ List.filter (has_release env) sids
    /\ invocations (trace s') = invocations (trace s)
    /\ istate s' = istate s
    /\ ev_req s' = ev_req s
    /\ ev_result s' = ev_result s.
Proof.
  revert s. induction sids as [| sid rest IH]; intros s; simpl.
  - exists s. rewrite app_nil_r. repeat split; reflexivity.
  - destruct (release_service_spec sid ctx s)
      as (s1 & Hrun & Hrel & Hinv & Hst & Hreq & Hres).
    destruct (IH s1) as (s2 & Hrun2 & Hrel2 & Hinv2 & Hst2 & Hreq2 & Hres2).
    exists s2. rewrite (bind_return _ _ _ _ _ Hrun), Hrun2.
    repeat split; try congruence.
    rewrite Hrel2, Hrel, <- app_assoc.
    now destruct (has_release env sid).
Qed.

Lemma release_spec ctx s :
  exists s',
    release env ctx s = (Return tt, s')
    /\ released (trace s') = released (trace s) ++ release_hooks env
    /\ invocations (trace s') = invocations (trace s)
    /\ istate s' = istate s
    /\ ev_req s' = ev_req s
    /\ ev_result s' = ev_result s.
Proof. apply release_loop_spec. Qed.

(** The [finally] block of the three entry points. *)
Lemma finally_release label ctx s :
  exists s',
    bind (log_timeEnd label) (fun _ => release env ctx) s = (Return tt, s')
    /\ released (trace s') = released (trace s) ++ release_hooks env
    /\ invocations (trace s') = invocations (trace s)
    /\ istate s' = istate s
    /\ ev_req s' = ev_req s
    /\ ev_result s' = ev_result s.
Proof.
  unfold bind, log_timeEnd, emit.
  match goal with
  | |- context [release env ctx ?s1] =>
      destruct (release_spec ctx s1)
        as (s' & Hrun & Hrel & Hinv & Hst & Hreq & Hres)
  end.
  exists s'. rewrite Hrun.
  cbn [trace istate ev_req ev_result] in *.
  unfold released, invocations in *.
  rewrite omap_app in Hrel. rewrite omap_app in Hinv.
  simpl in Hrel, Hinv. rewrite app_nil_r in Hrel, Hinv.
  repeat split; assumption.
Qed.

(** *** The state machine around a request *)

Lemma guard_ready_pass {A} (m : M A) s :
  istate s = Ready -> guard_ready m s = m s.
Proof.
  intros H. unfold guard_ready, bind, get_istate.
  rewrite bool_decide_false; [reflexivity | congruence].
Qed.

Lemma guard_ready_fail {A} (m : M A) s :
  istate s <> Ready ->
  guard_ready m s
  = (Throw (InternalServerError "Invalid container state"), s).
Proof.
  intros H. unfold guard_ready, bind, get_istate, throw.
  now rewrite bool_decide_true.
Qed.

(** A request whose protected block ends with outcome [o]. *)
Lemma entry_run {A} (body : M A) s o s' :
  istate s = Ready ->
  body (reserved s) = (o, s') ->
  guard_ready (bind (set_istate Reserved)
                 (fun _ => try_finally body (set_istate Ready))) s
  = (o, mkState Ready (world s') (trace s') (ev_req s') (ev_result s')).
Proof.
  intros Hready Hbody. rewrite guard_ready_pass by assumption.
  unfold bind at 1. cbn [set_istate].
  unfold reserved in Hbody. cbn [set_istate snd] in Hbody.
  unfold try_finally. rewrite Hbody. reflexivity.
Qed.

Lemma entry_state {A} (body : M A) s :
  istate s = Ready ->
  state (snd (guard_ready (bind (set_istate Reserved)
                 (fun _ => try_finally body (set_istate Ready))) s))
  = Ready.
Proof.
  intros Hready. destruct (body (reserved s)) as [o s'] eqn:Hbody.
  now rewrite (entry_run _ _ _ _ Hready Hbody).
Qed.

(** C1: a request that starts in state Ready leaves the instance in
    state Ready when it completes, whether it returns or throws; this
    holds for [remoteRequest], [eventRequest] and [httpRequest]. *)
Theorem ready_after_request (s : State) :
  istate s = Ready ->
  (forall req, state (snd (remoteRequest env req s)) = Ready)
  /\ (forall req, state (snd (eventRequest env req s)) = Ready)
  /\ (forall req, state (snd (httpRequest env req s)) = Ready).
Proof.
  intros Hready. repeat split; intros req; now apply entry_state.
Qed.

(** C2: in any state other than Ready each of the three entry points
    throws the state error and changes nothing: the state field, the
    world of the collaborators and the trace of calls are as before. *)
Theorem not_ready_rejected (s : State) :
  istate s <> Ready ->
  (forall req,
      remoteRequest env req s
      = (Throw (InternalServerError "Invalid container state"), s))
  /\ (forall req,
         eventRequest env req s
         = (Throw (InternalServerError "Invalid container state"), s))
  /\ (forall req,
         httpRequest env req s
         = (Throw (InternalServerError "Invalid container state"), s)).
Proof.
  intros Hstate. repeat split; intros req; now apply guard_ready_fail.
Qed.

(** C8: a remote request for another application fails with NotFound
    before the container is asked for the service: the trace gains no
    container lookup. *)
Theorem foreign_application_not_found (req : RemoteRequest) (s : State) :
  istate s = Ready ->
  rr_application req <> application env ->
  exists s',
    remoteRequest env req s
    = (Throw (NotFound ("Application not found [" +:+ rr_application req
                        +:+ "]")), s')
    /\ lookups (trace s') = lookups (trace s)
    /\ invocations (trace s') = invocations (trace s)
    /\ world s' = world s
    /\ state s' = Ready.
Proof.
  intros Hready Happ. eexists. split.
  - apply entry_run; [assumption |].
    unfold remote_resolve, bind, log_debug, emit, throw_logged, log_error,
      ret, throw.
    cbn. rewrite bool_decide_true by assumption. reflexivity.
  - cbn. unfold lookups, invocations.
    rewrite <- !app_assoc, !omap_app. simpl. rewrite !app_nil_r.
    repeat split; reflexivity.
Qed.

(** *** The protected block of a request *)

Lemma request_outcome {A} (body : M A) s o s' :
  istate s = Ready ->
  body (reserved s) = (o, s') ->
  fst (guard_ready (bind (set_istate Reserved)
                 (fun _ => try_finally body (set_istate Ready))) s) = o.
Proof.
  intros Hready Hbody. now rewrite (entry_run _ _ _ _ Hready Hbody).
Qed.

(** [try { body } catch .. finally { log.timeEnd(..); release(ctx) }]
    when [body] returns: the value gets through the release loop. *)
Lemma protected_return {A} (body : M A) handler label ctx s v s1 :
  body s = (Return v, s1) ->
  exists s',
    try_catch_finally body handler
      (bind (log_timeEnd label) (fun _ => release env ctx)) s
    = (Return v, s')
    /\ released (trace s') = released (trace s1) ++ release_hooks env
    /\ invocations (trace s') = invocations (trace s1)
    /\ istate s' = istate s1
    /\ ev_req s' = ev_req s1
    /\ ev_result s' = ev_result s1.
Proof.
  intros Hbody.
  destruct (finally_release label ctx s1) as (s' & Hfin & Hframe).
  exists s'. split; [| exact Hframe].
  unfold try_catch_finally.
  apply try_finally_run with (s' := s1); [| exact Hfin].
  now apply try_catch_return.
Qed.

(** The same block when [body] throws and the [catch] clause ends with
    outcome [o]. *)
Lemma protected_throw {A} (body : M A) handler label ctx s e s1 o s2 :
  body s = (Throw e, s1) ->
  handler e s1 = (o, s2) ->
  exists s',
    try_catch_finally body handler
      (bind (log_timeEnd label) (fun _ => release env ctx)) s
    = (o, s')
    /\ released (trace s') = released (trace s2) ++ release_hooks env
    /\ invocations (trace s') = invocations (trace s2)
    /\ istate s' = istate s2
    /\ ev_req s' = ev_req s2
    /\ ev_result s' = ev_result s2.
Proof.
  intros Hbody Hcatch.
  destruct (finally_release label ctx s2) as (s' & Hfin & Hframe).
  exists s'. split; [| exact Hframe].
  unfold try_catch_finally.
  apply try_finally_run with (s' := s2); [| exact Hfin].
  rewrite (try_catch_throw _ _ _ _ _ Hbody). exact Hcatch.
Qed.


(** *** Activation failures *)

Lemma preserves_run {A X} (f : State -> X) (m : M A) s o s' :
  preserves f m -> m s = (o, s') -> f s' = f s.
Proof. intros H Hrun. specialize (H s). now rewrite Hrun in H. Qed.

Lemma remote_resolve_invocations req :
  preserves (fun s => invocations (trace s)) (remote_resolve env req).
Proof.
  unfold remote_resolve, throw_logged, log_error, log_debug, container_get.
  cbv zeta. frame.
Qed.

Lemma remote_resolve_released req :
  preserves (fun s => released (trace s)) (remote_resolve env req).
Proof.
  unfold remote_resolve, throw_logged, log_error, log_debug, container_get.
  cbv zeta. frame.
Qed.

Lemma http_resolve_invocations req :
  preserves (fun s => invocations (trace s)) (http_resolve env req).
Proof.
  unfold http_resolve, throw_logged, log_error, log_debug, container_get.
  cbv zeta. frame.
Qed.

Lemma http_resolve_released req :
  preserves (fun s => released (trace s)) (http_resolve env req).
Proof.
  unfold http_resolve, throw_logged, log_error, log_debug, container_get.
  cbv zeta. frame.
Qed.

Lemma log_error_run e (s : State) :
  exists s',
    log_error e s = (Return e, s')
    /\ released (trace s') = released (trace s)
    /\ invocations (trace s') = invocations (trace s)
    /\ ev_result s' = ev_result s
    /\ ev_req s' = ev_req s.
Proof.
  eexists. split; [reflexivity |]. cbn.
  unfold released, invocations. rewrite !omap_app. cbn.
  rewrite !app_nil_r. repeat split; reflexivity.
Qed.

(** Remote path: the activation error is rethrown as it is. *)
Lemma remote_activation_failure req s service metadata ctx s1 e s2 :
  istate s = Ready ->
  remote_resolve env req (reserved s)
  = (Return (service, metadata, ctx), s1) ->
  activate env ctx s1 = (Throw e, s2) ->
  exists s',
    remoteRequest env req s = (Throw e, s')
    /\ invocations (trace s') = invocations (trace s)
    /\ released (trace s') = released (trace s) ++ release_hooks env
    /\ state s' = Ready.
Proof.
  intros Hready Hres Hact.
  assert (Hbody : remote_body env req service metadata ctx s1
                  = (Throw e, s2)).
  { unfold remote_body. now apply bind_throw. }
  destruct (log_error_run e s2) as (s3 & Hlog & Hrel3 & Hinv3 & _).
  assert (Hcatch : throw_logged (A:=Value) e s2 = (Throw e, s3)).
  { unfold throw_logged. now rewrite (bind_return _ _ _ _ _ Hlog). }
  destruct (protected_throw _ (fun e => throw_logged e) (mm_name metadata)
              ctx s1 e s2 _ s3 Hbody Hcatch)
    as (s4 & Hrun & Hrel4 & Hinv4 & _).
  eexists. split.
  - apply entry_run; [assumption |].
    rewrite (bind_return _ _ _ _ _ Hres). exact Hrun.
  - cbn [trace state istate].
    rewrite Hinv4, Hinv3, Hrel4, Hrel3.
    rewrite (preserves_run _ _ _ _ _ (activate_invocations ctx) Hact).
    rewrite (preserves_run _ _ _ _ _ (activate_released ctx) Hact).
    rewrite (preserves_run _ _ _ _ _ (remote_resolve_invocations req) Hres).
    rewrite (preserves_run _ _ _ _ _ (remote_resolve_released req) Hres).
    repeat split; reflexivity.
Qed.

(** HTTP path: the activation error is rethrown wrapped. *)
Lemma http_activation_failure req s route target service m req' ctx s1 e s2 :
  istate s = Ready ->
  http_resolve env req (reserved s)
  = (Return (route, target, service, Some m, req', ctx), s1) ->
  activate env ctx s1 = (Throw e, s2) ->
  exists s',
    httpRequest env req s = (Throw (wrap env e), s')
    /\ invocations (trace s') = invocations (trace s)
    /\ released (trace s') = released (trace s) ++ release_hooks env
    /\ state s' = Ready.
Proof.
  intros Hready Hres Hact.
  assert (Hbody : http_body env route target service (Some m) ctx req' s1
                  = (Throw e, s2)).
  { unfold http_body, http_call. apply bind_throw. now apply bind_throw. }
  destruct (log_error_run e s2) as (s3 & Hlog & Hrel3 & Hinv3 & _).
  assert (Hcatch : bind (log_error e) (fun _ => throw (A:=Value) (wrap env e))
                     s2 = (Throw (wrap env e), s3)).
  { now rewrite (bind_return _ _ _ _ _ Hlog). }
  destruct (protected_throw _
              (fun e => bind (log_error e) (fun _ => throw (wrap env e)))
              (mm_name m) ctx s1 e s2 _ s3 Hbody Hcatch)
    as (s4 & Hrun & Hrel4 & Hinv4 & _).
  eexists. split.
  - apply entry_run; [assumption |].
    rewrite (bind_return _ _ _ _ _ Hres). exact Hrun.
  - cbn [trace state istate].
    rewrite Hinv4, Hinv3, Hrel4, Hrel3.
    rewrite (preserves_run _ _ _ _ _ (activate_invocations ctx) Hact).
    rewrite (preserves_run _ _ _ _ _ (activate_released ctx) Hact).
    rewrite (preserves_run _ _ _ _ _ (http_resolve_invocations req) Hres).
    rewrite (preserves_run _ _ _ _ _ (http_resolve_released req) Hres).
    repeat split; reflexivity.
Qed.

(** The [catch] clause of an event target. *)
Lemma event_catch_run target e (s : State) :
  exists s',
    bind (log_error e) (fun _ =>
      bind (modify_result (set_status FAILED)) (fun _ =>
        modify_result (push_return (failure_entry env target e)))) s
    = (Return tt, s')
    /\ released (trace s') = released (trace s)
    /\ invocations (trace s') = invocations (trace s)
    /\ istate s' = istate s
    /\ ev_req s' = ev_req s
    /\ ev_result s'
       = push_return (failure_entry env target e)
           (set_status FAILED (ev_result s)).
Proof.
  eexists. split; [reflexivity |]. cbn.
  unfold released, invocations. rewrite !omap_app. cbn.
  rewrite !app_nil_r. repeat split; reflexivity.
Qed.

(** One target whose [try] body throws: the error is recorded and the
    target completes normally. *)
Lemma run_target_throw target service ctx s e s1 :
  target_body env target service ctx s = (Throw e, s1) ->
  exists s',
    run_target env target service ctx s = (Return tt, s')
    /\ released (trace s') = released (trace s1) ++ release_hooks env
    /\ invocations (trace s') = invocations (trace s1)
    /\ istate s' = istate s1
    /\ ev_req s' = ev_req s1
    /\ ev_result s'
       = push_return (failure_entry env target e)
           (set_status FAILED (ev_result s1)).
Proof.
  intros Hbody.
  destruct (event_catch_run target e s1)
    as (s2 & Hcatch & Hrel2 & Hinv2 & Hst2 & Hreq2 & Hres2).
  destruct (protected_throw _
              (fun e =>
                 bind (log_error e) (fun _ =>
                 bind (modify_result (set_status FAILED)) (fun _ =>
                 modify_result (push_return (failure_entry env target e)))))
              (em_method target) ctx s e s1 _ s2 Hbody Hcatch)
    as (s3 & Hrun & Hrel3 & Hinv3 & Hst3 & Hreq3 & Hres3).
  exists s3. split; [exact Hrun |].
  rewrite Hrel3, Hinv3, Hst3, Hreq3, Hres3, Hrel2, Hinv2, Hst2, Hreq2, Hres2.
  repeat split; reflexivity.
Qed.

(** *** The record loop and the targets of an event *)

Lemma record_call_result (target : EventMetadata) service ctx record :
  preserves ev_result (record_call target service ctx record).
Proof. unfold record_call, invoke_event, invoke. cbv zeta. frame. Qed.

Lemma record_call_records (target : EventMetadata) service ctx record :
  preserves (fun s => er_records (ev_req s))
    (record_call target service ctx record).
Proof. unfold record_call, invoke_event, invoke. cbv zeta. frame. Qed.

Lemma returns_default_status d r :
  returns (default_status d r) = returns r.
Proof. unfold default_status. now destruct (status r). Qed.

Lemma status_inv_success (target : EventMetadata) data r :
  status_inv r ->
  status_inv
    (push_return (success_entry target data) (default_status OK r)).
Proof.
  unfold status_inv, default_status.
  destruct (status r) as [[| |] |] eqn:Hst; cbn; rewrite ?Hst; cbn.
  - intros [Hne Hall]. split.
    + intros Heq. now apply app_eq_nil in Heq as [_ ?].
    + apply Forall_app. split; [assumption | now repeat constructor].
  - intros Hex. apply Exists_app. now left.
  - intros [].
  - intros ->. cbn. split; [discriminate | now repeat constructor].
Qed.

Lemma status_inv_failure target e r :
  status_inv
    (push_return (failure_entry env target e) (set_status FAILED r)).
Proof.
  unfold status_inv. cbn. apply Exists_app. right.
  constructor. cbn. discriminate.
Qed.

Lemma record_loop_spec (target : EventMetadata) service ctx records
    (s : State) o s' :
  record_loop target service ctx records s = (o, s') ->
  exists datas,
    returns (ev_result s')
    = returns (ev_result s) ++ map (success_entry target) datas
    /\ (o = Return tt -> length datas = length records)
    /\ (forall e, o = Throw e -> length datas < length records)
    /\ er_records (ev_req s') = er_records (ev_req s)
    /\ (status_inv (ev_result s) ->
        status_inv (ev_result s')).
Proof.
  revert s. induction records as [| record rest IH]; intros s Hrun.
  - injection Hrun as <- <-. exists []. cbn. rewrite app_nil_r.
    repeat split; auto. discriminate.
  - cbn [record_loop] in Hrun. unfold bind at 1 in Hrun.
    destruct (record_call target service ctx record s)
      as [[data | e] s1] eqn:Hcall.
    + pose proof (preserves_run _ _ _ _ _
                    (record_call_result target service ctx record) Hcall)
        as Hres1.
      pose proof (preserves_run _ _ _ _ _
                    (record_call_records target service ctx record) Hcall)
        as Hrec1.
      cbn in Hres1, Hrec1.
      unfold bind, modify_result in Hrun. cbn in Hrun.
      apply IH in Hrun as (datas & Hret & Hok & Hthrow & Hrecs & Hinv).
      cbn in Hret, Hrecs, Hinv.
      exists (data :: datas). cbn [map length].
      rewrite Hret, returns_default_status, Hres1, <- app_assoc.
      repeat split.
      * intros Ho. now rewrite Hok.
      * intros e Ho. specialize (Hthrow e Ho). lia.
      * congruence.
      * intros H0. apply Hinv. apply status_inv_success. now rewrite Hres1.
    + injection Hrun as <- <-. exists []. cbn. rewrite app_nil_r.
      pose proof (preserves_run _ _ _ _ _
                    (record_call_result target service ctx record) Hcall)
        as Hres1.
      pose proof (preserves_run _ _ _ _ _
                    (record_call_records target service ctx record) Hcall)
        as Hrec1.
      cbn in Hres1, Hrec1. rewrite Hres1.
      repeat split; auto; try discriminate.
      intros e0 _. lia.
Qed.

(** The loop stops at the first record whose call throws. *)
Lemma record_loop_stop (target : EventMetadata) service ctx pre record post
    (s : State) s1 e s2 :
  record_loop target service ctx pre s = (Return tt, s1) ->
  record_call target service ctx record s1 = (Throw e, s2) ->
  record_loop target service ctx (pre ++ record :: post) s
  = (Throw e, s2).
Proof.
  revert s. induction pre as [| r pre IH]; intros s Hpre Hcall.
  - injection Hpre as <-. cbn [app record_loop].
    now apply bind_throw.
  - cbn [app record_loop] in *. unfold bind at 1 in Hpre. unfold bind at 1.
    destruct (record_call target service ctx r s) as [[d | e0] s0];
      [| discriminate].
    unfold bind, modify_result in *. cbn in *.
    now apply IH.
Qed.

Lemma target_body_spec target service ctx s o s1 :
  target_body env target service ctx s = (o, s1) ->
  exists datas,
    returns (ev_result s1)
    = returns (ev_result s) ++ map (success_entry target) datas
    /\ (o = Return tt -> length datas = length (er_records (ev_req s)))
    /\ (forall e, o = Throw e ->
                  datas = [] \/ length datas < length (er_records (ev_req s)))
    /\ er_records (ev_req s1) = er_records (ev_req s)
    /\ (status_inv (ev_result s) -> status_inv (ev_result s1)).
Proof.
  unfold target_body. unfold bind at 1.
  destruct (activate env ctx s) as [[c | e] s0] eqn:Hact.
  - pose proof (preserves_run _ _ _ _ _ (activate_result ctx) Hact) as Hres.
    pose proof (preserves_run _ _ _ _ _ (activate_req ctx) Hact) as Hreq.
    unfold bind, get_req. intros Hloop.
    apply record_loop_spec in Hloop
      as (datas & Hret & Hok & Hthrow & Hrecs & Hinv).
    rewrite Hres, Hreq in *.
    exists datas. repeat split; auto.
    intros e He. right. now apply (Hthrow e).
  - intros Hrun. injection Hrun as <- <-.
    pose proof (preserves_run _ _ _ _ _ (activate_result ctx) Hact) as Hres.
    pose proof (preserves_run _ _ _ _ _ (activate_req ctx) Hact) as Hreq.
    rewrite Hres, Hreq.
    exists []. cbn. rewrite app_nil_r. repeat split; auto. discriminate.
Qed.

(** One target always completes normally and contributes one block. *)
Lemma run_target_spec target service ctx s :
  exists s' block,
    run_target env target service ctx s = (Return tt, s')
    /\ returns (ev_result s') = returns (ev_result s) ++ block
    /\ target_block env (length (er_records (ev_req s))) target block
    /\ er_records (ev_req s') = er_records (ev_req s)
    /\ (status_inv (ev_result s) -> status_inv (ev_result s')).
Proof.
  destruct (target_body env target service ctx s) as [[[] | e] s1] eqn:Hbody;
    destruct (target_body_spec _ _ _ _ _ _ Hbody)
      as (datas & Hret & Hok & Hthrow & Hrecs & Hinv).
  - destruct (protected_return _
                (fun e =>
                   bind (log_error e) (fun _ =>
                   bind (modify_result (set_status FAILED)) (fun _ =>
                   modify_result (push_return (failure_entry env target e)))))
                (em_method target) ctx s tt s1 Hbody)
      as (s' & Hrun & _ & _ & _ & Hreq & Hres).
    exists s', (map (success_entry target) datas).
    rewrite Hres, Hreq. repeat split; auto.
    exists datas. left. split; [reflexivity |].
    rewrite Hok by reflexivity. lia.
  - destruct (run_target_throw _ _ _ _ _ _ Hbody)
      as (s' & Hrun & _ & _ & _ & Hreq & Hres).
    exists s', (map (success_entry target) datas
                ++ [failure_entry env target e]).
    rewrite Hres, Hreq. cbn [returns push_return set_status].
    rewrite Hret, <- app_assoc. repeat split; auto.
    + exists datas. right. exists e. split; [reflexivity |].
      now apply (Hthrow e).
    + intros _. apply status_inv_failure.
Qed.

Lemma event_resolve_result route target :
  preserves ev_result (event_resolve env route target).
Proof.
  unfold event_resolve, container_get, throw_logged, log_error, get_req.
  cbv zeta. frame.
Qed.

Lemma event_resolve_records route target :
  preserves (fun s => er_records (ev_req s)) (event_resolve env route target).
Proof.
  unfold event_resolve, container_get, throw_logged, log_error, get_req.
  cbv zeta. frame.
Qed.

Lemma target_block_nil n target : target_block env n target [].
Proof. exists []. left. split; [reflexivity | cbn; lia]. Qed.

Lemma event_target_spec route target s o s' :
  event_target env route target s = (o, s') ->
  exists block,
    returns (ev_result s') = returns (ev_result s) ++ block
    /\ target_block env (length (er_records (ev_req s))) target block
    /\ er_records (ev_req s') = er_records (ev_req s)
    /\ (status_inv (ev_result s) -> status_inv (ev_result s')).
Proof.
  unfold event_target, bind.
  destruct (event_resolve env route target s) as [[r | e] s0] eqn:Hres.
  - pose proof (preserves_run _ _ _ _ _
                  (event_resolve_result route target) Hres) as Hr.
    pose proof (preserves_run _ _ _ _ _
                  (event_resolve_records route target) Hres) as Hq.
    cbn in Hr, Hq.
    destruct r as [[service ctx] |].
    + intros Hrun.
      destruct (run_target_spec target service ctx s0)
        as (s1 & block & Hrun' & Hret & Hblock & Hrecs & Hinv).
      rewrite Hrun' in Hrun. injection Hrun as <- <-.
      exists block. rewrite Hret, Hrecs, <- Hr, <- Hq. repeat split; auto.
    + intros Hrun. injection Hrun as <- <-.
      exists []. rewrite app_nil_r, Hr, Hq.
      repeat split; auto using target_block_nil.
  - intros Hrun. injection Hrun as <- <-.
    pose proof (preserves_run _ _ _ _ _
                  (event_resolve_result route target) Hres) as Hr.
    pose proof (preserves_run _ _ _ _ _
                  (event_resolve_records route target) Hres) as Hq.
    cbn in Hr, Hq.
    exists []. rewrite app_nil_r, Hr, Hq.
    repeat split; auto using target_block_nil.
Qed.

Lemma event_loop_spec route metadatas s o s' :
  event_loop env route metadatas s = (o, s') ->
  exists blocks,
    returns (ev_result s') = returns (ev_result s) ++ concat blocks
    /\ (o = Return tt ->
        Forall2 (target_block env (length (er_records (ev_req s))))
          metadatas blocks)
    /\ er_records (ev_req s') = er_records (ev_req s)
    /\ (status_inv (ev_result s) -> status_inv (ev_result s')).
Proof.
  revert s. induction metadatas as [| target rest IH]; intros s Hrun.
  - injection Hrun as <- <-. exists []. cbn. rewrite app_nil_r.
    repeat split; auto.
  - cbn [event_loop] in Hrun. unfold bind in Hrun.
    destruct (event_target env route target s) as [[[] | e] s0] eqn:Htarget;
      destruct (event_target_spec _ _ _ _ _ Htarget)
        as (block & Hret & Hblock & Hrecs & Hinv).
    + apply IH in Hrun as (blocks & Hret' & Hall & Hrecs' & Hinv').
      exists (block :: blocks). cbn [concat].
      rewrite Hret', Hret, Hrecs', Hrecs, <- app_assoc.
      repeat split; auto.
      intros Ho. constructor; [assumption |].
      rewrite <- Hrecs. now apply Hall.
    + injection Hrun as <- <-.
      exists [block]. cbn [concat]. rewrite app_nil_r.
      repeat split; auto. discriminate.
Qed.

Lemma event_init_spec req s route metadatas s0 :
  event_init env req s = (Return (route, metadatas), s0) ->
  resolve_event env (set_type "event" req) = (route, Some metadatas)
  /\ ev_req s0 = set_type "event" req
  /\ ev_result s0 = new_result (set_type "event" req).
Proof.
  unfold event_init, bind, modify_req, log_debug, emit, get_req,
    throw_logged, log_error, throw, ret, modify_result, set_istate.
  cbn.
  destruct (resolve_event env (set_type "event" req)) as [route' [ms |]];
    cbn; [| discriminate].
  intros H. injection H as <- <- <-. cbn. repeat split; reflexivity.
Qed.

Lemma status_final_default r :
  status_inv r -> status_final (default_status NOP r).
Proof.
  unfold status_inv, status_final, default_status.
  destruct (status r) as [[| |] |] eqn:Hst;
    [rewrite Hst; auto; intros [] .. |].
  cbn. auto.
Qed.

(** What [eventRequest] returns, when it returns. *)
Lemma eventRequest_spec req s r s' :
  istate s = Ready ->
  eventRequest env req s = (Return r, s') ->
  exists route metadatas blocks,
    resolve_event env (set_type "event" req) = (route, Some metadatas)
    /\ returns r = concat blocks
    /\ Forall2 (target_block env (length (er_records req))) metadatas blocks
    /\ status_final r.
Proof.
  intros Hready. unfold eventRequest.
  match goal with
  | |- guard_ready (bind _ (fun _ => try_finally ?b _)) s = _ -> _ =>
      destruct (b (reserved s)) as [o s1] eqn:Hbody;
      rewrite (entry_run _ _ _ _ Hready Hbody)
  end.
  intros Heq. injection Heq as -> _.
  unfold bind at 1 in Hbody.
  destruct (event_init env req (reserved s)) as [[[route ms] | e] s0]
    eqn:Hinit; [| discriminate].
  apply event_init_spec in Hinit as (Hresolve & Hreq0 & Hres0).
  unfold bind at 1 in Hbody.
  destruct (event_loop env route ms s0) as [[[] | e] s2] eqn:Hloop;
    [| discriminate].
  apply event_loop_spec in Hloop as (blocks & Hret & Hall & Hrecs & Hinv).
  cbn in Hbody. injection Hbody as <- _.
  exists route, ms, blocks. split; [assumption |].
  rewrite returns_default_status, Hret, Hres0. cbn [returns new_result app].
  split; [reflexivity |]. split.
  - specialize (Hall eq_refl). now rewrite Hreq0 in Hall.
  - apply status_final_default, Hinv. rewrite Hres0. reflexivity.
Qed.

Lemma target_block_error_last n target block :
  target_block env n target block -> error_only_last block.
Proof.
  intros (datas & [[-> _] | (e & -> & _)]) i entry Hi Herr.
  - rewrite list_lookup_fmap in Hi.
    destruct (datas !! i); [| discriminate].
    injection Hi as <-. now contradict Herr.
  - rewrite length_app, length_map. cbn.
    destruct (decide (i < length datas)) as [Hlt | Hge].
    + rewrite lookup_app_l in Hi by now rewrite length_map.
      rewrite list_lookup_fmap in Hi.
      destruct (datas !! i); [| discriminate].
      injection Hi as <-. now contradict Herr.
    + apply lookup_lt_Some in Hi.
      rewrite length_app, length_map in Hi. cbn in Hi. lia.
Qed.

Lemma target_block_owner n target block :
  target_block env n target block ->
  Forall (fun en => ret_service en = em_service target
                    /\ ret_method en = em_method target) block.
Proof.
  intros (datas & [[-> _] | (e & -> & _)]).
  - apply Forall_fmap, Forall_true. now intros d.
  - apply Forall_app. split.
    + apply Forall_fmap, Forall_true. now intros d.
    + now repeat constructor.
Qed.

(** C10: when [eventRequest] returns, its returns list is the
    concatenation of one block per registered target, in registration
    order; within a block only the last entry can carry an error, so a
    block has at most one, and the block stops there. *)
Theorem error_entry_ends_block req s r s' :
  istate s = Ready ->
  eventRequest env req s = (Return r, s') ->
  exists route metadatas blocks,
    resolve_event env (set_type "event" req) = (route, Some metadatas)
    /\ returns r = concat blocks
    /\ Forall2
         (fun target block =>
            target_block env (length (er_records req)) target block
            /\ error_only_last block
            /\ Forall (fun en => ret_service en = em_service target
                                 /\ ret_method en = em_method target) block)
         metadatas blocks.
Proof.
  intros Hready Hrun.
  destruct (eventRequest_spec _ _ _ _ Hready Hrun)
    as (route & ms & blocks & Hresolve & Hret & Hall & _).
  exists route, ms, blocks. repeat split; try assumption.
  eapply Forall2_impl; [exact Hall |].
  intros target block Hblock. cbn.
  eauto using target_block_error_last, target_block_owner.
Qed.

(** *** Outcomes of the protected blocks *)

(** The outcome of a resolved remote request is the outcome of activation
    and handler; the [finally] block cannot change it. *)
Lemma remote_outcome req s service metadata ctx s1 o s2 :
  istate s = Ready ->
  remote_resolve env req (reserved s)
  = (Return (service, metadata, ctx), s1) ->
  remote_body env req service metadata ctx s1 = (o, s2) ->
  fst (remoteRequest env req s) = o.
Proof.
  intros Hready Hres Hbody. destruct o as [v | e].
  - destruct (protected_return _ (fun e => throw_logged e)
                (mm_name metadata) ctx s1 v s2 Hbody) as (s' & Hrun & _).
    apply request_outcome with (s' := s'); [assumption |].
    rewrite (bind_return _ _ _ _ _ Hres). exact Hrun.
  - destruct (log_error_run e s2) as (s3 & Hlog & _).
    assert (Hcatch : throw_logged (A:=Value) e s2 = (Throw e, s3)).
    { unfold throw_logged. now rewrite (bind_return _ _ _ _ _ Hlog). }
    destruct (protected_throw _ (fun e => throw_logged e) (mm_name metadata)
                ctx s1 e s2 _ s3 Hbody Hcatch) as (s' & Hrun & _).
    apply request_outcome with (s' := s'); [assumption |].
    rewrite (bind_return _ _ _ _ _ Hres). exact Hrun.
Qed.

(** The same for an HTTP request whose method metadata is registered; the
    [catch] clause wraps an error. *)
Lemma http_body_outcome req s route target service m req' ctx s1 o s2 :
  istate s = Ready ->
  http_resolve env req (reserved s)
  = (Return (route, target, service, Some m, req', ctx), s1) ->
  http_body env route target service (Some m) ctx req' s1 = (o, s2) ->
  fst (httpRequest env req s) = surface env o.
Proof.
  intros Hready Hres Hbody. destruct o as [v | e]; cbn [surface].
  - destruct (protected_return _
                (fun e => bind (log_error e) (fun _ => throw (wrap env e)))
                (mm_name m) ctx s1 v s2 Hbody) as (s' & Hrun & _).
    apply request_outcome with (s' := s'); [assumption |].
    rewrite (bind_return _ _ _ _ _ Hres). exact Hrun.
  - destruct (log_error_run e s2) as (s3 & Hlog & _).
    assert (Hcatch : bind (log_error e)
                       (fun _ => throw (A:=Value) (wrap env e)) s2
                     = (Throw (wrap env e), s3)).
    { now rewrite (bind_return _ _ _ _ _ Hlog). }
    destruct (protected_throw _
                (fun e => bind (log_error e) (fun _ => throw (wrap env e)))
                (mm_name m) ctx s1 e s2 _ s3 Hbody Hcatch)
      as (s' & Hrun & _).
    apply request_outcome with (s' := s'); [assumption |].
    rewrite (bind_return _ _ _ _ _ Hres). exact Hrun.
Qed.

(** The result object after one target is the one its [try] and [catch]
    left; the release loop does not touch it. *)
Lemma run_target_result target service ctx s o s1 :
  target_body env target service ctx s = (o, s1) ->
  exists s',
    run_target env target service ctx s = (Return tt, s')
    /\ ev_result s'
       = match o with
         | Return _ => ev_result s1
         | Throw e =>
             push_return (failure_entry env target e)
               (set_status FAILED (ev_result s1))
         end.
Proof.
  intros Hbody. destruct o as [[] | e].
  - destruct (protected_return _
                (fun e =>
                   bind (log_error e) (fun _ =>
                   bind (modify_result (set_status FAILED)) (fun _ =>
                   modify_result (push_return (failure_entry env target e)))))
                (em_method target) ctx s tt s1 Hbody)
      as (s' & Hrun & _ & _ & _ & _ & Hres).
    exists s'. split; assumption.
  - destruct (run_target_throw _ _ _ _ _ _ Hbody)
      as (s' & Hrun & _ & _ & _ & _ & Hres).
    exists s'. split; assumption.
Qed.

(** A target that resolved never stops the loop. *)
Lemma event_loop_step route target rest service ctx s s1 :
  event_resolve env route target s = (Return (Some (service, ctx)), s1) ->
  event_loop env route (target :: rest) s
  = event_loop env route rest (snd (run_target env target service ctx s1)).
Proof.
  intros Hres. cbn [event_loop]. unfold event_target.
  unfold bind at 1. unfold bind at 1. rewrite Hres.
  destruct (run_target_spec target service ctx s1)
    as (s2 & block & Hrun & _).
  now rewrite Hrun.
Qed.


(** C4 (amended): when activation throws, the handler is not invoked and
    the release loop still visits every registered service.  A remote
    request rejects with the activation error and an HTTP request whose
    method metadata is registered rejects with the wrapped error; an event
    request does not reject: the target gets an entry with the wrapped
    error, the status becomes FAILED, the target completes normally and the
    loop goes on with the next target. *)
Theorem activation_failure :
  (forall req s service metadata ctx s1 e s2,
      istate s = Ready ->
      remote_resolve env req (reserved s)
      = (Return (service, metadata, ctx), s1) ->
      activate env ctx s1 = (Throw e, s2) ->
      exists s',
        remoteRequest env req s = (Throw e, s')
        /\ invocations (trace s') = invocations (trace s)
        /\ released (trace s') = released (trace s) ++ release_hooks env)
  /\ (forall req s route target service m req' ctx s1 e s2,
         istate s = Ready ->
         http_resolve env req (reserved s)
         = (Return (route, target, service, Some m, req', ctx), s1) ->
         activate env ctx s1 = (Throw e, s2) ->
         exists s',
           httpRequest env req s = (Throw (wrap env e), s')
           /\ invocations (trace s') = invocations (trace s)
           /\ released (trace s') = released (trace s) ++ release_hooks env)
  /\ (forall route target rest service ctx s s1 e s2,
         event_resolve env route target s
         = (Return (Some (service, ctx)), s1) ->
         activate env ctx s1 = (Throw e, s2) ->
         exists s',
           run_target env target service ctx s1 = (Return tt, s')
           /\ invocations (trace s') = invocations (trace s1)
           /\ released (trace s') = released (trace s1) ++ release_hooks env
           /\ ev_result s'
              = push_return (failure_entry env target e)
                  (set_status FAILED (ev_result s1))
           /\ event_loop env route (target :: rest) s
              = event_loop env route rest s').
Proof.
  split; [| split].
  - intros req s service metadata ctx s1 e s2 Hready Hres Hact.
    destruct (remote_activation_failure _ _ _ _ _ _ _ _ Hready Hres Hact)
      as (s' & Hrun & Hinv & Hrel & _).
    eauto.
  - intros req s route target service m req' ctx s1 e s2 Hready Hres Hact.
    destruct (http_activation_failure _ _ _ _ _ _ _ _ _ _ _
                Hready Hres Hact) as (s' & Hrun & Hinv & Hrel & _).
    eauto.
  - intros route target rest service ctx s s1 e s2 Hresolve Hact.
    assert (Hbody : target_body env target service ctx s1 = (Throw e, s2)).
    { unfold target_body. now apply bind_throw. }
    destruct (run_target_throw _ _ _ _ _ _ Hbody)
      as (s' & Hrun & Hrel & Hinv & _ & _ & Hres).
    exists s'. split; [exact Hrun |].
    rewrite Hinv, Hrel, Hres.
    rewrite (preserves_run _ _ _ _ _ (activate_invocations ctx) Hact).
    rewrite (preserves_run _ _ _ _ _ (activate_released ctx) Hact).
    rewrite (preserves_run _ _ _ _ _ (activate_result ctx) Hact).
    repeat split; try reflexivity.
    rewrite (event_loop_step _ _ rest _ _ _ _ Hresolve). now rewrite Hrun.
Qed.

(** C3 (amended): a record whose call throws ends the record loop of its
    target: the entries of the records before it stay in the result, the
    records after it are not handled, the target gets one entry with the
    wrapped error and status FAILED, and the target completes normally so
    that the loop goes on with the next target.  The returned status is
    FAILED exactly when some entry carries an error, OK when there are
    entries and none carries an error, NOP when there is no entry. *)
Theorem event_failure_isolation :
  (forall (target : EventMetadata) service ctx pre record post
          (s : State) s1 e s2,
      record_loop target service ctx pre s = (Return tt, s1) ->
      record_call target service ctx record s1 = (Throw e, s2) ->
      record_loop target service ctx (pre ++ record :: post) s
      = (Throw e, s2)
      /\ exists datas,
          length datas = length pre
          /\ returns (ev_result s2)
             = returns (ev_result s) ++ map (success_entry target) datas)
  /\ (forall target service ctx s e s1,
         target_body env target service ctx s = (Throw e, s1) ->
         exists s',
           run_target env target service ctx s = (Return tt, s')
           /\ invocations (trace s') = invocations (trace s1)
           /\ ev_result s'
              = push_return (failure_entry env target e)
                  (set_status FAILED (ev_result s1)))
  /\ (forall route target rest service ctx s s1,
         event_resolve env route target s
         = (Return (Some (service, ctx)), s1) ->
         event_loop env route (target :: rest) s
         = event_loop env route rest
             (snd (run_target env target service ctx s1)))
  /\ (forall req s r s',
         istate s = Ready ->
         eventRequest env req s = (Return r, s') ->
         status_final r).
Proof.
  split; [| split; [| split]].
  - intros target service ctx pre record post s s1 e s2 Hpre Hcall.
    split; [now apply record_loop_stop with (s1 := s1) |].
    destruct (record_loop_spec _ _ _ _ _ _ _ Hpre)
      as (datas & Hret & Hok & _).
    exists datas. split; [now apply Hok |].
    pose proof (preserves_run _ _ _ _ _
                  (record_call_result target service ctx record) Hcall)
      as Hres.
    cbn in Hres. now rewrite Hres.
  - intros target service ctx s e s1 Hbody.
    destruct (run_target_throw _ _ _ _ _ _ Hbody)
      as (s' & Hrun & _ & Hinv & _ & _ & Hres).
    eauto.
  - intros route target rest service ctx s s1. apply event_loop_step.
  - intros req s r s' Hready Hrun.
    now destruct (eventRequest_spec _ _ _ _ Hready Hrun)
      as (route & ms & blocks & _ & _ & _ & Hfinal).
Qed.

(** *** Events that reach no target *)

Lemma event_target_filtered route req target s :
  ev_req s = req ->
  filtered_out env route req target ->
  exists s',
    event_target env route target s = (Return tt, s')
    /\ ev_req s' = ev_req s
    /\ ev_result s' = ev_result s
    /\ invocations (trace s') = invocations (trace s).
Proof.
  intros Hreq ([service Hsv] & filter & Hroute & Hmatch).
  unfold event_target, event_resolve, container_get, bind, emit, ret,
    get_req.
  cbn. rewrite Hsv, Hroute, Hreq. cbn.
  rewrite <- negb_andb, Hmatch. cbn.
  eexists. repeat split.
  cbn. unfold invocations. rewrite omap_app. cbn. now rewrite app_nil_r.
Qed.

Lemma event_loop_filtered route req metadatas s :
  ev_req s = req ->
  Forall (filtered_out env route req) metadatas ->
  exists s',
    event_loop env route metadatas s = (Return tt, s')
    /\ ev_req s' = ev_req s
    /\ ev_result s' = ev_result s
    /\ invocations (trace s') = invocations (trace s).
Proof.
  intros Hreq Hall. revert s Hreq.
  induction Hall as [| target rest Htarget _ IH]; intros s Hreq.
  - exists s. repeat split; reflexivity.
  - destruct (event_target_filtered route req target s Hreq Htarget)
      as (s1 & Hrun & Hq1 & Hr1 & Hi1).
    destruct (IH s1) as (s2 & Hrun2 & Hq2 & Hr2 & Hi2); [congruence |].
    exists s2. cbn [event_loop].
    rewrite (bind_return _ _ _ _ _ Hrun), Hrun2.
    repeat split; congruence.
Qed.

(** C6 (amended): when neither the route key nor the alias key is
    registered, [eventRequest] throws NotFound; when the key that is used
    is registered and every target on it is passed over by its filters
    (also when the registration list is empty), [eventRequest] returns
    status NOP with an empty returns list and no handler is invoked. *)
Theorem unmatched_event :
  (forall req s,
      istate s = Ready ->
      events (Metadata env) !! (er_source req +:+ " " +:+ er_resource req)
      = None ->
      events (Metadata env)
        !! (er_source req +:+ " " +:+ alias_of env (er_resource req))
      = None ->
      exists s',
        eventRequest env req s
        = (Throw (NotFound
                    ("Event handler not found ["
                     +:+ (er_source req +:+ " "
                          +:+ alias_of env (er_resource req))
                     +:+ "] [" +:+ er_object req +:+ "]")), s')
        /\ state s' = Ready)
  /\ (forall req s route metadatas,
         istate s = Ready ->
         resolve_event env (set_type "event" req) = (route, Some metadatas) ->
         Forall (filtered_out env route (set_type "event" req)) metadatas ->
         exists s',
           eventRequest env req s
           = (Return {| status := Some NOP;
                        res_source := er_source req;
                        res_action := er_action req;
                        res_resource := er_resource req;
                        res_object := er_object req;
                        returns := [] |}, s')
           /\ invocations (trace s') = invocations (trace s)).
Proof.
  split.
  - intros req s Hready Hroute Halias.
    eexists. split.
    + apply entry_run; [assumption |].
      unfold event_init, throw_logged, log_error, resolve_event, bind,
        modify_req, log_debug, emit, get_req, throw, ret.
      cbn. rewrite Hroute, Halias. reflexivity.
    + reflexivity.
  - intros req s route ms Hready Hresolve Hall.
    assert (Hinit : exists s0,
               event_init env req (reserved s) = (Return (route, ms), s0)
               /\ ev_req s0 = set_type "event" req
               /\ ev_result s0 = new_result (set_type "event" req)
               /\ invocations (trace s0) = invocations (trace s)).
    { unfold event_init, bind, modify_req, log_debug, emit, get_req,
        modify_result, set_istate, ret.
      cbn. rewrite Hresolve. cbn. eexists. repeat split.
      cbn. unfold invocations. rewrite omap_app. cbn.
      now rewrite app_nil_r. }
    destruct Hinit as (s0 & Hinit & Hq0 & Hr0 & Hi0).
    destruct (event_loop_filtered route _ ms s0 Hq0 Hall)
      as (s1 & Hloop & Hq1 & Hr1 & Hi1).
    eexists. split.
    + apply entry_run; [assumption |].
      rewrite (bind_return _ _ _ _ _ Hinit).
      rewrite (bind_return _ _ _ _ _ Hloop).
      unfold bind, modify_result, get_result. cbn.
      rewrite Hr1, Hr0. reflexivity.
    + cbn [trace]. now rewrite Hi1.
Qed.

(** *** Two targets *)

Lemma event_target_run route target service ctx s s1 s2 :
  event_resolve env route target s = (Return (Some (service, ctx)), s1) ->
  run_target env target service ctx s1 = (Return tt, s2) ->
  event_target env route target s = (Return tt, s2).
Proof.
  intros Hres Hrun. unfold event_target.
  now rewrite (bind_return _ _ _ _ _ Hres).
Qed.

(** C7 (amended): an event with exactly two matching targets, the first
    of which succeeds and the second of which throws, returns status
    FAILED; its returns list holds one null-error entry per record for the
    first target, then the null-error entries of the records the second
    target handled before it threw, then one entry with the wrapped error.
    With a single record this is one null-error entry followed by one
    entry with an error. *)
Theorem second_target_throws
    req s route A B s0 svcA ctxA s1 s2 svcB ctxB s4 e s5 :
  istate s = Ready ->
  event_init env req (reserved s) = (Return (route, [A; B]), s0) ->
  event_resolve env route A s0 = (Return (Some (svcA, ctxA)), s1) ->
  target_body env A svcA ctxA s1 = (Return tt, s2) ->
  event_resolve env route B (snd (run_target env A svcA ctxA s1))
  = (Return (Some (svcB, ctxB)), s4) ->
  target_body env B svcB ctxB s4 = (Throw e, s5) ->
  exists r s',
    eventRequest env req s = (Return r, s')
    /\ status r = Some FAILED
    /\ (exists datasA datasB,
           returns r
           = map (success_entry A) datasA
             ++ map (success_entry B) datasB ++ [failure_entry env B e]
           /\ length datasA = length (er_records req)
           /\ (datasB = [] \/ length datasB < length (er_records req)))
    /\ (forall record,
           er_records req = [record] ->
           exists data,
             returns r = [success_entry A data; failure_entry env B e]).
Proof.
  intros Hready Hinit HresA HbodyA HresB HbodyB.
  pose proof (event_init_spec _ _ _ _ _ Hinit) as (_ & Hq0 & Hr0).
  pose proof (preserves_run _ _ _ _ _
                (event_resolve_result route A) HresA) as Hr1.
  pose proof (preserves_run _ _ _ _ _
                (event_resolve_records route A) HresA) as Hq1.
  destruct (target_body_spec _ _ _ _ _ _ HbodyA)
    as (datasA & HretA & HlenA & _ & Hq2 & _).
  specialize (HlenA eq_refl).
  destruct (protected_return _
              (fun e =>
                 bind (log_error e) (fun _ =>
                 bind (modify_result (set_status FAILED)) (fun _ =>
                 modify_result (push_return (failure_entry env A e)))))
              (em_method A) ctxA s1 tt s2 HbodyA)
    as (s3 & HrunA & _ & _ & _ & Hq3 & Hr3).
  fold (run_target env A svcA ctxA) in HrunA.
  rewrite HrunA in HresB. cbn [snd] in HresB.
  pose proof (preserves_run _ _ _ _ _
                (event_resolve_result route B) HresB) as Hr4.
  pose proof (preserves_run _ _ _ _ _
                (event_resolve_records route B) HresB) as Hq4.
  destruct (target_body_spec _ _ _ _ _ _ HbodyB)
    as (datasB & HretB & _ & HlenB & _ & _).
  specialize (HlenB e eq_refl).
  destruct (run_target_throw _ _ _ _ _ _ HbodyB)
    as (s6 & HrunB & _ & _ & _ & _ & Hr6).
  cbn in Hr1, Hq1, Hr4, Hq4.
  assert (Hrecords : er_records (ev_req s1) = er_records req)
    by now rewrite Hq1, Hq0.
  assert (Hrecords4 : er_records (ev_req s4) = er_records req)
    by now rewrite Hq4, Hq3, Hq2.
  assert (Hloop : event_loop env route [A; B] s0 = (Return tt, s6)).
  { cbn [event_loop].
    rewrite (bind_return _ _ _ _ _
               (event_target_run _ _ _ _ _ _ _ HresA HrunA)).
    rewrite (bind_return _ _ _ _ _
               (event_target_run _ _ _ _ _ _ _ HresB HrunB)).
    reflexivity. }
  assert (Hreturns : returns (ev_result s6)
                     = map (success_entry A) datasA
                       ++ map (success_entry B) datasB
                       ++ [failure_entry env B e]).
  { rewrite Hr6. cbn [returns push_return set_status].
    rewrite HretB, Hr4, Hr3, HretA, Hr1, Hr0. cbn [returns new_result app].
    now rewrite <- app_assoc. }
  assert (Hstatus : default_status NOP (ev_result s6) = ev_result s6).
  { rewrite Hr6. reflexivity. }
  eexists. eexists. split; [| split; [| split]].
  - apply entry_run; [assumption |].
    rewrite (bind_return _ _ _ _ _ Hinit). cbv beta iota.
    rewrite (bind_return _ _ _ _ _ Hloop).
    unfold bind, modify_result, get_result. cbn. reflexivity.
  - rewrite Hstatus, Hr6. reflexivity.
  - exists datasA, datasB. rewrite Hstatus.
    split; [exact Hreturns |]. split; [congruence |].
    destruct HlenB as [-> | Hlt]; [now left | right; congruence].
  - intros record Hone. rewrite Hstatus, Hreturns.
    rewrite Hrecords, Hone in HlenA. rewrite Hrecords4, Hone in HlenB.
    destruct datasA as [| dA [| ? ?]]; try discriminate.
    destruct HlenB as [-> | Hlt].
    + exists dA. reflexivity.
    + destruct datasB; [exists dA; reflexivity | cbn in Hlt; lia].
Qed.

(** *** The HTTP response *)

Lemma obj_get_set_ne fields k k' x :
  k <> k' -> obj_get (obj_set fields k' x) k = obj_get fields k.
Proof.
  intros Hne. induction fields as [| [k0 v0] rest IH]; cbn.
  - destruct (String.eqb_spec k' k); [congruence | reflexivity].
  - destruct (String.eqb_spec k0 k') as [-> | Hk0]; cbn.
    + destruct (String.eqb_spec k' k); [congruence | reflexivity].
    + destruct (String.eqb_spec k0 k); [reflexivity | exact IH].
Qed.

(** Injecting the token touches the [headers] property only. *)
Lemma set_token_header_fields tok v v' k :
  set_token_header tok v = Return v' ->
  k <> "headers" ->
  get_field v' k = get_field v k.
Proof.
  intros Hset Hk. unfold set_token_header in Hset.
  destruct v as [| | b | n | str | fields]; cbn in Hset; try discriminate.
  destruct (set_field _ "Token" (VStr tok)) as [h1 | e]; [| discriminate].
  cbn in Hset. injection Hset as <-. cbn.
  now rewrite !obj_get_set_ne by assumption.
Qed.

Lemma set_token_header_wrapped tok statusCode body ct :
  set_token_header tok
    (VObj [("statusCode", VNum statusCode); ("body", body);
           ("contentType", VStr ct)])
  = Return (VObj [("statusCode", VNum statusCode); ("body", body);
                  ("contentType", VStr ct);
                  ("headers", VObj [("Token", VStr tok)])]).
Proof. reflexivity. Qed.

Lemma declared_content_type_raw (m : MethodMetadata) :
  contentType m = Some HttpResponse ->
  declared_content_type m = HttpResponse.
Proof. intros H. unfold declared_content_type. now rewrite H. Qed.

Lemma http_call_method route target service method ctx req s m h v s' :
  http_call env route target service method ctx req s
  = (Return (m, h, v), s') ->
  method = Some m.
Proof.
  unfold http_call, bind.
  destruct (activate env ctx s) as [[c | e] s1]; [| discriminate].
  unfold log_debug, emit, throw, ret. cbn.
  destruct method as [m' |]; [| discriminate].
  destruct (http m' !! route) as [h' |]; [| discriminate].
  destruct (invoke_http _ _ _ _ _ _ _) as [[v' | e] s2]; [| discriminate].
  intros H. now injection H as -> _ _ _.
Qed.

(** The outcome of an HTTP request whose handler returned [v]. *)
Lemma http_outcome req s route target service method req' ctx s1 m h v s2 :
  istate s = Ready ->
  http_resolve env req (reserved s)
  = (Return (route, target, service, method, req', ctx), s1) ->
  http_call env route target service method ctx req' s1
  = (Return (m, h, v), s2) ->
  fst (httpRequest env req s)
  = surface env
      (inject_token ctx (normalize (declared_content_type m) (code h) v)).
Proof.
  intros Hready Hres Hcall.
  pose proof (http_call_method _ _ _ _ _ _ _ _ _ _ _ Hcall) as ->.
  assert (Hbody : exists s3,
             http_body env route target service (Some m) ctx req' s1
             = (inject_token ctx
                  (normalize (declared_content_type m) (code h) v), s3)).
  { unfold http_body. rewrite (bind_return _ _ _ _ _ Hcall).
    cbv beta iota zeta. unfold bind, lift_outcome, log_debug, emit, ret.
    destruct (inject_token ctx _) as [r | e]; cbn; eauto. }
  destruct Hbody as (s3 & Hbody).
  exact (http_body_outcome _ _ _ _ _ _ _ _ _ _ _ Hready Hres Hbody).
Qed.

Lemma obj_get_set_eq fields k x : obj_get (obj_set fields k x) k = x.
Proof.
  induction fields as [| [k' v] rest IH]; cbn.
  - now rewrite String.eqb_refl.
  - destruct (String.eqb k' k) eqn:Hk; cbn; now rewrite Hk.
Qed.

(** After the injection [headers] is an object whose [Token] is the
    token. *)
Lemma set_token_header_token tok v v' :
  set_token_header tok v = Return v' ->
  exists headers,
    get_field v' "headers" = Return (VObj headers)
    /\ obj_get headers "Token" = VStr tok.
Proof.
  unfold set_token_header.
  destruct v as [| | b | n | str | fields]; cbn; try discriminate.
  destruct (truthy (obj_get fields "headers")) eqn:Htruthy.
  - destruct (obj_get fields "headers") as [| | b | n | str | hs];
      cbn; try discriminate.
    intros H. injection H as <-.
    exists (obj_set hs "Token" (VStr tok)). cbn.
    now rewrite !obj_get_set_eq.
  - cbn. intros H. injection H as <-.
    exists [("Token", VStr tok)]. cbn.
    now rewrite obj_get_set_eq.
Qed.

(** Only an object takes the header. *)
Lemma set_token_header_primitive tok v :
  (forall fields, v <> VObj fields) ->
  exists msg, set_token_header tok v = Throw (TypeError msg).
Proof.
  intros Hv. destruct v as [| | b | n | str | fields]; cbn; eauto.
  now destruct (Hv fields).
Qed.

Lemma declared_content_type_declared (m : MethodMetadata) ct :
  contentType m = Some (Mime ct) -> ct <> "" ->
  declared_content_type m = Mime ct.
Proof.
  intros H Hct. unfold declared_content_type. rewrite H.
  destruct ct; [now contradict Hct | reflexivity].
Qed.

Lemma declared_content_type_default (m : MethodMetadata) :
  contentType m = None \/ contentType m = Some (Mime "") ->
  declared_content_type m = Mime "application/json".
Proof.
  intros [H | H]; unfold declared_content_type; now rewrite H.
Qed.

(** C9 (amended): when the handler of an HTTP request returns [v] and the
    context carries no renewed token, the response is [v] itself if the
    method declares the [HttpResponse] sentinel, [{statusCode, body: v,
    contentType}] with the declared code and the declared content type if
    it declares a MIME type, and the same with ["application/json"] if it
    declares none (or the empty string).  With a renewed token
    [headers.Token] is set on that response and nothing else changes: a
    wrapped response gets [headers: {Token}]; a raw response that is an
    object gets the header beside its other properties; a raw response
    that is not an object makes the request throw the wrapped TypeError
    instead of returning [v]. *)
Theorem http_response_normalization
    req s route target service method req' ctx s1 m h v s2 :
  istate s = Ready ->
  http_resolve env req (reserved s)
  = (Return (route, target, service, method, req', ctx), s1) ->
  http_call env route target service method ctx req' s1
  = (Return (m, h, v), s2) ->
  (contentType m = Some HttpResponse ->
   (renewed_token ctx = None -> fst (httpRequest env req s) = Return v)
   /\ (forall tok,
          renewed_token ctx = Some tok ->
          fst (httpRequest env req s) = surface env (set_token_header tok v)
          /\ (forall v' k,
                 set_token_header tok v = Return v' ->
                 k <> "headers" -> get_field v' k = get_field v k)
          /\ (forall v',
                 set_token_header tok v = Return v' ->
                 fst (httpRequest env req s) = Return v'
                 /\ exists headers,
                     get_field v' "headers" = Return (VObj headers)
                     /\ obj_get headers "Token" = VStr tok)
          /\ ((forall fields, v <> VObj fields) ->
              exists msg,
                fst (httpRequest env req s)
                = Throw (wrap env (TypeError msg)))))
  /\ (forall ct,
         contentType m = Some (Mime ct) -> ct <> "" ->
         fst (httpRequest env req s)
         = Return
             (VObj ([("statusCode", VNum (code h)); ("body", v);
                     ("contentType", VStr ct)]
                    ++ match renewed_token ctx with
                       | Some tok =>
                           [("headers", VObj [("Token", VStr tok)])]
                       | None => []
                       end)))
  /\ (contentType m = None \/ contentType m = Some (Mime "") ->
      fst (httpRequest env req s)
      = Return
          (VObj ([("statusCode", VNum (code h)); ("body", v);
                  ("contentType", VStr "application/json")]
                 ++ match renewed_token ctx with
                    | Some tok =>
                        [("headers", VObj [("Token", VStr tok)])]
                    | None => []
                    end))).
Proof.
  intros Hready Hres Hcall.
  pose proof (http_outcome _ _ _ _ _ _ _ _ _ _ _ _ _ Hready Hres Hcall)
    as Hout.
  assert (Hwrapped : forall ct,
             declared_content_type m = Mime ct ->
             fst (httpRequest env req s)
             = Return
                 (VObj ([("statusCode", VNum (code h)); ("body", v);
                         ("contentType", VStr ct)]
                        ++ match renewed_token ctx with
                           | Some tok =>
                               [("headers", VObj [("Token", VStr tok)])]
                           | None => []
                           end))).
  { intros ct Hct. rewrite Hct in Hout. cbn [normalize] in Hout.
    unfold inject_token in Hout.
    destruct (renewed_token ctx) as [tok |].
    - now rewrite set_token_header_wrapped in Hout.
    - exact Hout. }
  split; [| split].
  - intros Hraw. rewrite (declared_content_type_raw _ Hraw) in Hout.
    cbn [normalize] in Hout. unfold inject_token in Hout.
    split.
    + intros Hnone. now rewrite Hnone in Hout.
    + intros tok Htok. rewrite Htok in Hout.
      split; [exact Hout |]. split; [| split].
      * intros v' k. apply set_token_header_fields.
      * intros v' Hset. split.
        -- now rewrite Hout, Hset.
        -- exact (set_token_header_token _ _ _ Hset).
      * intros Hprim.
        destruct (set_token_header_primitive tok v Hprim) as (msg & Hset).
        exists msg. now rewrite Hout, Hset.
  - intros ct Hct Hne.
    exact (Hwrapped ct (declared_content_type_declared _ _ Hct Hne)).
  - intros Hdefault.
    exact (Hwrapped _ (declared_content_type_default _ Hdefault)).
Qed.

End Theory.

(** ** The theorems at concrete requests *)

Import Demo.

Lemma ready_after_request_witness :
  istate ready = Ready
  /\ state (snd (remoteRequest shop_connect_fails hello_call ready)) = Ready.
Proof.
  split; [reflexivity |].
  exact (proj1 (ready_after_request shop_connect_fails ready eq_refl)
           hello_call).
Defined.

Lemma not_ready_rejected_witness :
  istate busy <> Ready
  /\ httpRequest shop hello_http busy
     = (Throw (InternalServerError "Invalid container state"), busy).
Proof.
  assert (H : istate busy <> Ready) by discriminate.
  split; [exact H |].
  exact (proj2 (proj2 (not_ready_rejected shop busy H)) hello_http).
Defined.

Lemma foreign_application_not_found_witness :
  exists s',
    remoteRequest shop foreign_call ready
    = (Throw (NotFound "Application not found [bank]"), s')
    /\ lookups (trace s') = lookups (trace ready)
    /\ invocations (trace s') = invocations (trace ready)
    /\ world s' = world ready
    /\ state s' = Ready.
Proof.
  assert (Happ : rr_application foreign_call <> application shop)
    by discriminate.
  exact (foreign_application_not_found shop foreign_call ready eq_refl Happ).
Defined.


Lemma activation_failure_witness :
  exists s',
    remoteRequest shop_connect_fails hello_call ready
    = (Throw (Thrown (VStr "connect failed")), s')
    /\ invocations (trace s') = invocations (trace ready)
    /\ released (trace s')
       = released (trace ready) ++ release_hooks shop_connect_fails.
Proof.
  pose proof (activation_failure shop_connect_fails) as (Hremote & _ & _).
  eapply (Hremote hello_call ready);
    [reflexivity | vm_compute; reflexivity | vm_compute; reflexivity].
Defined.

(** C4, as stated, fails for events: the activation hook throws and
    [eventRequest] returns a result instead of rejecting. *)
Lemma activation_failure_event_returns :
  fst (activate shop_connect_fails None ready)
  = Throw (Thrown (VStr "connect failed"))
  /\ fst (eventRequest shop_connect_fails (order_event [VNum 1]) ready)
     = Return {| status := Some FAILED; res_source := "queue";
                 res_action := "created"; res_resource := "orders";
                 res_object := "order-1";
                 returns := [{| ret_service := "greeter";
                                ret_method := "hello";
                                ret_error :=
                                  Some (InternalServerError
                                          "Internal Server Error");
                                ret_data := None |}] |}.
Proof. split; vm_compute; reflexivity. Qed.

(** C3, as stated, fails: of two records the first throws, the second is
    never handled and contributes no entry. *)
Lemma later_records_skipped :
  exists r s',
    eventRequest shop_boom (order_event [VNum 1; VNum 2]) ready
    = (Return r, s')
    /\ length (er_records (order_event [VNum 1; VNum 2])) = 2
    /\ returns r = [failure_entry shop_boom (target "boom") boom_error]
    /\ invocations (trace s') = [("greeter", "boom")].
Proof.
  eexists. eexists. split; [vm_compute; reflexivity |].
  repeat split; vm_compute; reflexivity.
Qed.

Lemma event_failure_isolation_witness :
  (exists s',
      run_target shop_boom (target "boom") greeter None
        (during [VNum 1; VNum 2])
      = (Return tt, s')
      /\ returns (ev_result s')
         = [failure_entry shop_boom (target "boom") boom_error])
  /\ status_final
       {| status := Some FAILED; res_source := "queue";
          res_action := "created"; res_resource := "orders";
          res_object := "order-1";
          returns := [failure_entry shop_boom (target "boom") boom_error] |}.
Proof.
  pose proof (event_failure_isolation shop_boom)
    as (_ & Htarget & _ & Hstatus).
  split.
  - edestruct (Htarget (target "boom") greeter None (during [VNum 1; VNum 2]))
      as (s' & Hrun & _ & Hres); [vm_compute; reflexivity |].
    exists s'. split; [exact Hrun |]. rewrite Hres. reflexivity.
  - eapply (Hstatus (order_event [VNum 1; VNum 2]) ready);
      [reflexivity | vm_compute; reflexivity].
Defined.

(** C6, as stated, fails: neither key is registered and [eventRequest]
    throws NotFound instead of returning status NOP. *)
Lemma unregistered_event_not_found :
  events (Metadata shop) !! "queue refunds" = None
  /\ events (Metadata shop) !! ("queue " +:+ alias_of shop "refunds") = None
  /\ fst (eventRequest shop refund_event ready)
     = Throw (NotFound
                "Event handler not found [queue undefined] [refund-1]").
Proof. repeat split; vm_compute; reflexivity. Qed.

Lemma unmatched_event_witness :
  (exists s',
      eventRequest shop refund_event ready
      = (Throw (NotFound
                  "Event handler not found [queue undefined] [refund-1]"), s')
      /\ state s' = Ready)
  /\ (exists s',
         eventRequest shop_picky (order_event [VNum 1]) ready
         = (Return {| status := Some NOP; res_source := "queue";
                      res_action := "created"; res_resource := "orders";
                      res_object := "order-1"; returns := [] |}, s')
         /\ invocations (trace s') = invocations (trace ready)).
Proof.
  split.
  - pose proof (unmatched_event shop) as (Hnone & _).
    apply (Hnone refund_event ready); vm_compute; reflexivity.
  - pose proof (unmatched_event shop_picky) as (_ & Hnop).
    apply (Hnop (order_event [VNum 1]) ready "queue orders" [picky_target]);
      [reflexivity | vm_compute; reflexivity |].
    constructor; [| constructor].
    split; [eexists; vm_compute; reflexivity |].
    eexists. split; vm_compute; reflexivity.
Defined.

(** C7, as stated, fails: with two records the first target contributes two
    null-error entries, so the list has three entries. *)
Lemma two_records_three_entries :
  fst (eventRequest shop_hello_boom (order_event [VNum 1; VNum 2]) ready)
  = Return {| status := Some FAILED; res_source := "queue";
              res_action := "created"; res_resource := "orders";
              res_object := "order-1";
              returns := [success_entry (target "hello") (VStr "hi");
                          success_entry (target "hello") (VStr "hi");
                          failure_entry shop_hello_boom (target "boom")
                            boom_error] |}.
Proof. vm_compute. reflexivity. Qed.

Lemma second_target_throws_witness :
  exists r s',
    eventRequest shop_hello_boom (order_event [VNum 7]) ready = (Return r, s')
    /\ status r = Some FAILED
    /\ exists data,
        returns r = [success_entry (target "hello") data;
                     failure_entry shop_hello_boom (target "boom") boom_error].
Proof.
  edestruct (second_target_throws shop_hello_boom (order_event [VNum 7]) ready
               "queue orders" (target "hello") (target "boom"))
    as (r & s' & Hrun & Hstatus & _ & Hone);
    [ reflexivity
    | vm_compute; reflexivity
    | vm_compute; reflexivity
    | vm_compute; reflexivity
    | vm_compute; reflexivity
    | vm_compute; reflexivity
    | ].
  exists r, s'. split; [exact Hrun |]. split; [exact Hstatus |].
  exact (Hone (VNum 7) eq_refl).
Defined.

(** C9, as stated, fails: the method declares the sentinel and the handler
    returns the string ["hi"], but the context carries a renewed token and
    the request throws instead of returning ["hi"]. *)
Lemma raw_response_token_rejected :
  methods (Metadata (Scenario.shop_typed (Some HttpResponse)
                       (Scenario.renewing "t1")))
    !! "greeter.hello"
  = Some (Scenario.typed_hello (Some HttpResponse))
  /\ (exists s1 h s2,
         http_call (Scenario.shop_typed (Some HttpResponse)
                      (Scenario.renewing "t1"))
           "GET /hello" {| rt_service := "greeter"; rt_method := "hello" |}
           greeter (Some (Scenario.typed_hello (Some HttpResponse)))
           (Scenario.renewed_context "t1")
           (http_set_target "shop" "greeter" "hello"
              (http_set_type "http" hello_http)) s1
         = (Return (Scenario.typed_hello (Some HttpResponse), h, VStr "hi"),
            s2))
  /\ fst (httpRequest (Scenario.shop_typed (Some HttpResponse)
                         (Scenario.renewing "t1")) hello_http ready)
     = Throw (InternalServerError "Internal Server Error").
Proof.
  split; [vm_compute; reflexivity |].
  split; [| vm_compute; reflexivity].
  exists (snd (http_resolve (Scenario.shop_typed (Some HttpResponse)
                              (Scenario.renewing "t1")) hello_http
                 (reserved ready))).
  eexists. eexists. vm_compute. reflexivity.
Qed.

Lemma http_response_normalization_witness :
  fst (httpRequest (Scenario.shop_typed (Some HttpResponse) (security shop))
         hello_http ready)
  = Return (VStr "hi")
  /\ (exists msg,
         fst (httpRequest (Scenario.shop_typed (Some HttpResponse)
                             (Scenario.renewing "t1")) hello_http ready)
         = Throw (wrap shop (TypeError msg)))
  /\ fst (httpRequest
            (Scenario.shop_typed (Some (Mime "text/plain")) (security shop))
            hello_http ready)
     = Return (VObj [("statusCode", VNum 200); ("body", VStr "hi");
                     ("contentType", VStr "text/plain")])
  /\ fst (httpRequest (Scenario.shop_typed None (Scenario.renewing "t1"))
            hello_http ready)
     = Return (VObj [("statusCode", VNum 200); ("body", VStr "hi");
                     ("contentType", VStr "application/json");
                     ("headers", VObj [("Token", VStr "t1")])]).
Proof.
  split; [| split; [| split]].
  - edestruct (http_response_normalization
                 (Scenario.shop_typed (Some HttpResponse) (security shop))
                 hello_http ready)
      as (Hraw & _);
      [reflexivity | vm_compute; reflexivity | vm_compute; reflexivity |].
    destruct (Hraw eq_refl) as (Hplain & _).
    exact (Hplain eq_refl).
  - edestruct (http_response_normalization
                 (Scenario.shop_typed (Some HttpResponse)
                    (Scenario.renewing "t1"))
                 hello_http ready)
      as (Hraw & _);
      [reflexivity | vm_compute; reflexivity | vm_compute; reflexivity |].
    destruct (Hraw eq_refl) as (_ & Htoken).
    destruct (Htoken "t1" eq_refl) as (_ & _ & _ & Hprimitive).
    apply Hprimitive. intros fields. discriminate.
  - edestruct (http_response_normalization
                 (Scenario.shop_typed (Some (Mime "text/plain"))
                    (security shop))
                 hello_http ready)
      as (_ & Hmime & _);
      [reflexivity | vm_compute; reflexivity | vm_compute; reflexivity |].
    assert (Hne : "text/plain" <> "") by discriminate.
    exact (Hmime "text/plain" eq_refl Hne).
  - edestruct (http_response_normalization
                 (Scenario.shop_typed None (Scenario.renewing "t1"))
                 hello_http ready)
      as (_ & _ & Hdefault);
      [reflexivity | vm_compute; reflexivity | vm_compute; reflexivity |].
    exact (Hdefault (or_introl eq_refl)).
Defined.

Lemma error_entry_ends_block_witness :
  exists blocks,
    length blocks = 2
    /\ Forall error_only_last blocks
    /\ concat blocks
       = [success_entry (target "hello") (VStr "hi");
          success_entry (target "hello") (VStr "hi");
          failure_entry shop_hello_boom (target "boom") boom_error].
Proof.
  edestruct (error_entry_ends_block shop_hello_boom
               (order_event [VNum 1; VNum 2]) ready)
    as (route & ms & blocks & Hresolve & Hret & Hall);
    [reflexivity | vm_compute; reflexivity |].
  exists blocks.
  assert (Hms : ms = [target "hello"; target "boom"]).
  { vm_compute in Hresolve. injection Hresolve as _ <-. reflexivity. }
  split; [| split].
  - apply Forall2_length in Hall. rewrite <- Hall, Hms. reflexivity.
  - clear Hret Hms Hresolve.
    induction Hall as [| t b ts bs (_ & Hlast & _) _ IH];
      constructor; auto.
  - rewrite <- Hret. reflexivity.
Defined.

(** ** Setting the instance up *)

Section SetupTheory.

Context {World : Type}.
Variable setup : @Setup World.

Lemma with_store_same (i : @Instance World) : with_store (inst_store i) i = i.
Proof. now destruct i. Qed.

Lemma guard_pending_fail {A} (body : @IM World A) i :
  istate (inst_store i) <> Pending ->
  guard_pending body i
  = (Throw (InternalServerError "Invalid container state"), i).
Proof.
  intros H. unfold guard_pending, ibind, on_store, get_istate, ithrow.
  rewrite bool_decide_true by assumption. now rewrite with_store_same.
Qed.

Lemma guard_pending_pass {A} (body : @IM World A) i :
  istate (inst_store i) = Pending -> guard_pending body i = body i.
Proof.
  intros H. unfold guard_pending, ibind, on_store, get_istate.
  rewrite bool_decide_false by congruence. now rewrite with_store_same.
Qed.

(** [register], [publish] and [prepare] are for the Pending instance only:
    in any other state each throws the state error and leaves the instance,
    its fields included, as it was. *)
Theorem setup_rejected_outside_pending (i : @Instance World) :
  istate (inst_store i) <> Pending ->
  (forall T (target : T),
      register target i
      = (Throw (InternalServerError "Invalid container state"), i))
  /\ (forall T (target : T),
         publish target i
         = (Throw (InternalServerError "Invalid container state"), i))
  /\ prepare setup i
     = (Throw (InternalServerError "Invalid container state"), i).
Proof.
  intros H. repeat split; intros; now apply guard_pending_fail.
Qed.

Ltac setup_case :=
  match goal with
  | |- context [container_has setup ?id ?w] =>
      destruct (container_has setup id w)
  | |- context [container_set_default setup ?id ?w] =>
      destruct (container_set_default setup id w) as [[[] | ?] ?]
  | |- context [get_configuration setup ?w] =>
      destruct (get_configuration setup w) as [[? | ?] ?]
  | |- context [get_security setup ?w] =>
      destruct (get_security setup w) as [[? | ?] ?]
  | |- context [cfg_init ?c ?a ?w] =>
      destruct (cfg_init c a w) as [[[] | ?] ?]
  | |- context [cfg_core ?c] => destruct (cfg_core c)
  | |- context [cfg_service ?c] => destruct (cfg_service c)
  | |- context [sec_core ?c] => destruct (sec_core c)
  | |- context [sec_service ?c] => destruct (sec_service c)
  end.

Ltac run_prepare :=
  unfold ensure_default, ibind, on_store, call, note, set_config,
    set_security, read_instance, iret, ithrow, set_istate, with_store;
  cbn; repeat (setup_case; cbn).

(** A [prepare] that returns, and one that throws. *)
Lemma prepare_return (i i' : @Instance World) :
  istate (inst_store i) = Pending ->
  prepare setup i = (Return tt, i') ->
  istate (inst_store i') = Ready
  /\ is_Some (inst_config i') /\ is_Some (inst_security i').
Proof.
  intros Hpending. unfold prepare. rewrite guard_pending_pass by assumption.
  destruct i as [app name st cfg sec log]. cbn in Hpending.
  run_prepare; intros H; try discriminate; injection H as <-; cbn; eauto.
Qed.

Lemma prepare_throw (i i' : @Instance World) e :
  istate (inst_store i) = Pending ->
  prepare setup i = (Throw e, i') ->
  istate (inst_store i') = Pending.
Proof.
  intros Hpending. unfold prepare. rewrite guard_pending_pass by assumption.
  destruct i as [app name st cfg sec log]. cbn in Hpending.
  run_prepare; intros H; try discriminate; injection H as _ <-; cbn; auto.
Qed.

(** A [prepare] that returns has made the instance Ready with both fields
    set; a [prepare] that throws has left it Pending, so that requests stay
    rejected and [prepare] can be called again. *)
Theorem prepare_outcome (i : @Instance World) o i' :
  istate (inst_store i) = Pending ->
  prepare setup i = (o, i') ->
  (o = Return tt ->
   istate (inst_store i') = Ready
   /\ is_Some (inst_config i') /\ is_Some (inst_security i'))
  /\ (forall e, o = Throw e -> istate (inst_store i') = Pending).
Proof.
  intros Hpending Hrun. split.
  - intros ->. now apply (prepare_return i i').
  - intros e ->. now apply (prepare_throw i i' e).
Qed.

Lemma ibind_return {A B} (m : @IM World A) (k : A -> @IM World B) i a i' :
  m i = (Return a, i') -> ibind m k i = k a i'.
Proof. intros H. unfold ibind. now rewrite H. Qed.

Ltac close_setup :=
  intros H; injection H as <- <-; cbn;
  split; [reflexivity |]; eexists; rewrite <- !app_assoc; reflexivity.

(** Which configuration the instance gets.  A Configuration that is
    registered is taken as it is: nothing is set and no warning is given.
    When none is registered the default is set first, with a warning, and
    the lookup runs on the container so changed.  In both cases the field
    is assigned before the checks, so it is set even when [prepare] goes on
    to throw. *)
Theorem prepare_configuration_choice (i : @Instance World) c o i' :
  istate (inst_store i) = Pending ->
  prepare setup i = (o, i') ->
  (forall w,
      container_has setup ConfigurationId (world (inst_store i)) = true ->
      get_configuration setup (world (inst_store i)) = (Return c, w) ->
      inst_config i' = Some c
      /\ exists rest,
          inst_setup i'
          = inst_setup i
            ++ [ContainerHas ConfigurationId; ContainerLookup ConfigurationId]
            ++ rest)
  /\ (forall w1 w2,
         container_has setup ConfigurationId (world (inst_store i)) = false ->
         container_set_default setup ConfigurationId (world (inst_store i))
         = (Return tt, w1) ->
         get_configuration setup w1 = (Return c, w2) ->
         inst_config i' = Some c
         /\ exists rest,
             inst_setup i'
             = inst_setup i
               ++ [ContainerHas ConfigurationId;
                   Warned "Using default configuration service!";
                   ContainerSet ConfigurationId;
                   ContainerLookup ConfigurationId]
               ++ rest).
Proof.
  intros Hpending. unfold prepare. rewrite guard_pending_pass by assumption.
  destruct i as [app name st cfg sec log]. cbn in Hpending |- *.
  intros Hrun. split.
  - intros w Hhas Hget. revert Hrun.
    unfold ensure_default, ibind, on_store, call, note, set_config,
      set_security, read_instance, iret, ithrow, set_istate, with_store.
    cbn. rewrite Hhas. cbn. rewrite Hget. cbn.
    repeat (setup_case; cbn); close_setup.
  - intros w1 w2 Hhas Hset Hget. revert Hrun.
    unfold ensure_default, ibind, on_store, call, note, set_config,
      set_security, read_instance, iret, ithrow, set_istate, with_store.
    cbn. rewrite Hhas. cbn. rewrite Hset. cbn. rewrite Hget. cbn.
    repeat (setup_case; cbn); close_setup.
Qed.

(** A configuration object that is neither a [CoreConfiguration] nor a
    registered service stops [prepare]: it throws "Configuration must be a
    service" with the object already assigned to the field, the instance
    stays Pending, and the security service is never looked at. *)
Theorem prepare_rejects_plain_configuration (i i1 : @Instance World) c w :
  istate (inst_store i) = Pending ->
  ensure_default setup ConfigurationId "Using default configuration service!"
    i = (Return tt, i1) ->
  get_configuration setup (world (inst_store i1)) = (Return c, w) ->
  cfg_core c = false ->
  cfg_service c = false ->
  exists i',
    prepare setup i
    = (Throw (InternalServerError "Configuration must be a service"), i')
    /\ istate (inst_store i') = Pending
    /\ inst_config i' = Some c
    /\ inst_security i' = inst_security i
    /\ inst_setup i' = inst_setup i1 ++ [ContainerLookup ConfigurationId].
Proof.
  intros Hpending Hdefault Hget Hcore Hservice.
  assert (Hi1 : istate (inst_store i1) = Pending
                /\ inst_security i1 = inst_security i).
  { revert Hdefault. destruct i as [app name st cfg sec log].
    cbn in Hpending |- *.
    unfold ensure_default, ibind, on_store, call, note, read_instance, iret,
      with_store.
    cbn. repeat (setup_case; cbn); intros H; try discriminate;
      injection H as <-; cbn; auto. }
  destruct Hi1 as [Hpending1 Hsec1].
  unfold prepare. rewrite guard_pending_pass by assumption.
  rewrite (ibind_return _ _ _ _ _ Hdefault).
  destruct i1 as [app name st cfg sec log]. cbn in *.
  unfold ibind, on_store, call, note, set_config, ithrow, with_store.
  cbn. rewrite Hget. cbn. rewrite Hcore, Hservice. cbn.
  eexists. repeat split; cbn; auto.
Qed.

(** *** The fields are there when a request needs them *)

Lemma request_keeps_pending {A} (body : @M World A) s :
  istate s = Pending ->
  istate (snd (guard_ready body s)) = Pending.
Proof.
  intros H. rewrite guard_ready_fail by (rewrite H; discriminate).
  exact H.
Qed.

Lemma on_store_configured {A} (body : @M World A) i :
  configured i -> configured (snd (on_store (guard_ready body) i)).
Proof.
  intros Hconf. unfold configured, on_store.
  destruct (guard_ready body (inst_store i)) as [o st] eqn:Hrun. cbn.
  intros Hne. apply Hconf. intros Hpending. apply Hne.
  pose proof (request_keeps_pending body _ Hpending) as H.
  now rewrite Hrun in H.
Qed.

(** [config] and [security] are set whenever the instance is not Pending:
    this holds for a new instance and is kept by [register], [publish],
    [prepare] and the three kinds of request, so a request that passes the
    state guard never finds [this.security] or [this.config] undefined. *)
Theorem configured_invariant :
  (forall app name index w,
      configured (new_instance (World:=World) app name index w))
  /\ (forall i : @Instance World,
         configured i -> configured (snd (prepare setup i)))
  /\ (forall T (target : T) (i : @Instance World),
         configured i ->
         configured (snd (register target i))
         /\ configured (snd (publish target i)))
  /\ (forall (env : @Env World) (i : @Instance World),
         configured i ->
         (forall req, configured (snd (on_store (remoteRequest env req) i)))
         /\ (forall req, configured (snd (on_store (eventRequest env req) i)))
         /\ (forall req, configured (snd (on_store (httpRequest env req) i)))).
Proof.
  split; [| split; [| split]].
  - intros app name index w Hne. now contradict Hne.
  - intros i Hconf.
    destruct (decide (istate (inst_store i) = Pending)) as [Hp | Hnp].
    + destruct (prepare setup i) as [o i'] eqn:Hrun. cbn.
      intros Hne. destruct o as [[] | e].
      * now apply (prepare_return i i').
      * now contradict Hne; apply (prepare_throw i i' e).
    + unfold prepare. now rewrite guard_pending_fail.
  - intros T target i Hconf.
    destruct (decide (istate (inst_store i) = Pending)) as [Hp | Hnp].
    + unfold register, publish. rewrite !guard_pending_pass by assumption.
      now split.
    + unfold register, publish. rewrite !guard_pending_fail by assumption.
      now split.
  - intros env i Hconf.
    split; [| split]; intros req; now apply on_store_configured.
Qed.

(** *** Series of requests *)

Lemma serve_rejected env (r : Request) (s : @State World) :
  istate s <> Ready -> serve env r s = (state_error_of r, s).
Proof.
  intros H. destruct r; unfold serve, remoteRequest, eventRequest, httpRequest;
    now rewrite guard_ready_fail.
Qed.

Lemma serve_all_rejected env rs (s : @State World) :
  istate s <> Ready -> serve_all env rs s = (map state_error_of rs, s).
Proof.
  intros H. induction rs as [| r rest IH]; cbn; [reflexivity |].
  rewrite serve_rejected by assumption. now rewrite IH.
Qed.

Lemma request_ready {A} (body : @M World A) s :
  istate s = Ready ->
  istate (snd (guard_ready (bind (set_istate Reserved)
                 (fun _ => try_finally body (set_istate Ready))) s)) = Ready.
Proof. apply entry_state. Qed.

Lemma serve_ready env (r : Request) (s : @State World) :
  istate s = Ready -> istate (snd (serve env r s)) = Ready.
Proof.
  intros H. destruct r as [req | req | req]; unfold serve.
  - pose proof (request_ready _ s H : istate (snd (remoteRequest env req s))
                                      = Ready) as Hs.
    now destruct (remoteRequest env req s).
  - pose proof (request_ready _ s H : istate (snd (eventRequest env req s))
                                      = Ready) as Hs.
    now destruct (eventRequest env req s).
  - pose proof (request_ready _ s H : istate (snd (httpRequest env req s))
                                      = Ready) as Hs.
    now destruct (httpRequest env req s).
Qed.

Lemma serve_all_ready env rs (s : @State World) :
  istate s = Ready ->
  istate (snd (serve_all env rs s)) = Ready
  /\ length (fst (serve_all env rs s)) = length rs.
Proof.
  revert s. induction rs as [| r rest IH]; intros s H; cbn; [now split |].
  pose proof (serve_ready env r s H) as Hs.
  destruct (serve env r s) as [o s1]. cbn in Hs.
  destruct (IH s1 Hs) as [Hst Hlen].
  destruct (serve_all env rest s1) as [os s2]. cbn in *. now rewrite Hlen.
Qed.

(** A new instance is Pending: [register] and [publish] are accepted and
    change nothing, and every request of any series is answered with the
    state error, the instance staying as the constructor left it. *)
Theorem new_instance_only_configures app name index (w : World) :
  let i := new_instance app name index w in
  istate (inst_store i) = Pending
  /\ (forall T (target : T),
         register target i = (Return tt, i)
         /\ publish target i = (Return tt, i))
  /\ (forall env rs,
         serve_all env rs (inst_store i)
         = (map state_error_of rs, inst_store i)).
Proof.
  intros i. split; [reflexivity |]. split.
  - intros T target. unfold register, publish.
    now rewrite !guard_pending_pass by reflexivity.
  - intros env rs. now apply serve_all_rejected.
Qed.

(** Once [prepare] has returned, the instance serves any series of
    requests, one after the other, and is Ready after each series; the
    setup methods are closed for good: [prepare], [register] and [publish]
    throw the state error before and after the series. *)
Theorem prepared_instance_serves (i i' : @Instance World) env rs :
  istate (inst_store i) = Pending ->
  prepare setup i = (Return tt, i') ->
  let served := with_store (snd (serve_all env rs (inst_store i'))) i' in
  istate (inst_store served) = Ready
  /\ length (fst (serve_all env rs (inst_store i'))) = length rs
  /\ prepare setup served
     = (Throw (InternalServerError "Invalid container state"), served)
  /\ (forall T (target : T),
         register target served
         = (Throw (InternalServerError "Invalid container state"), served)
         /\ publish target served
            = (Throw (InternalServerError "Invalid container state"),
               served)).
Proof.
  intros Hpending Hrun.
  destruct (prepare_return i i' Hpending Hrun) as (Hready & _).
  destruct (serve_all_ready env rs _ Hready) as [Hst Hlen].
  cbn zeta.
  assert (Hnp : istate (inst_store
                  (with_store (snd (serve_all env rs (inst_store i'))) i'))
                <> Pending).
  { cbn. rewrite Hst. discriminate. }
  split; [exact Hst |]. split; [exact Hlen |].
  split; [unfold prepare; now apply guard_pending_fail |].
  intros T target. unfold register, publish.
  split; now apply guard_pending_fail.
Qed.

End SetupTheory.


(** ** More on the dispatcher *)

Section DispatchTheory.

Context {World : Type}.
Variable env : @Env World.

Abbreviation M := (@M World).
Abbreviation State := (@State World).
Abbreviation Service := (@Service World).
Abbreviation MethodMetadata := (@MethodMetadata World).
Abbreviation EventMetadata := (@EventMetadata World).

Ltac simpl_trace :=
  cbn [trace istate world ev_req ev_result];
  unfold invocations, released, lookups, logged_errors, auth_calls,
    lifecycle;
  rewrite <- ?app_assoc, ?omap_app; cbn; rewrite ?app_nil_r.

Ltac keep_step :=
  first
    [ apply preserves_ret
    | apply preserves_throw
    | apply preserves_lift
    | apply preserves_bind; [| intros ?]
    | apply preserves_try_catch; [| intros ?]
    | apply preserves_try_finally
    | apply preserves_call; intros ? ?; reflexivity
    | apply preserves_emit; intros ?; simpl_trace; reflexivity
    | intros ?; reflexivity
    | match goal with
      | |- preserves _ (match ?x with _ => _ end) => destruct x
      | |- preserves _ (if ?b then _ else _) => destruct b
      end ].

Ltac keep := repeat keep_step.

(** *** Errors of the security provider *)

(** An error of the security provider ends the request before activation:
    no hook, activate or release, and no handler is called, and the
    dispatcher neither logs nor wraps the error, also on the HTTP path
    where handler errors are wrapped. *)
Theorem auth_failure_propagates :
  (forall req s sv md e w,
      istate s = Ready ->
      rr_application req = application env ->
      container env !! rr_service req = Some sv ->
      methods (Metadata env) !! (rr_service req +:+ "." +:+ rr_method req)
      = Some md ->
      remoteAuth (security env) req md (world s) = (Throw e, w) ->
      exists s',
        remoteRequest env req s = (Throw e, s')
        /\ lifecycle (trace s') = lifecycle (trace s)
        /\ logged_errors (trace s') = logged_errors (trace s)
        /\ world s' = w
        /\ state s' = Ready)
  /\ (forall req s req1 target sv e w,
         istate s = Ready ->
         httpUtilsRequest env (http_set_type "http" req) = Return req1 ->
         routes (Metadata env) !! http_route req1 = Some target ->
         container env !! rt_service target = Some sv ->
         httpAuth (security env)
           (http_set_target (application env) (rt_service target)
              (rt_method target) req1)
           (methods (Metadata env)
              !! (rt_service target +:+ "." +:+ rt_method target))
           (world s)
         = (Throw e, w) ->
         exists s',
           httpRequest env req s = (Throw e, s')
           /\ lifecycle (trace s') = lifecycle (trace s)
           /\ logged_errors (trace s') = logged_errors (trace s)
           /\ world s' = w
           /\ state s' = Ready).
Proof.
  split.
  - intros req s sv md e w Hready Happ Hsv Hmd Hauth.
    eexists. split.
    + apply entry_run; [assumption |].
      unfold remote_resolve, throw_logged, log_error, log_debug,
        container_get, bind, emit, ret, throw, call, set_istate.
      cbn. rewrite bool_decide_false by (intros H; now apply H).
      cbn. rewrite Hsv, Hmd. cbn. rewrite Hauth. reflexivity.
    + simpl_trace. repeat split; reflexivity.
  - intros req s req1 target sv e w Hready Hutil Hroute Hsv Hauth.
    eexists. split.
    + apply entry_run; [assumption |].
      unfold http_resolve, throw_logged, log_error, log_debug,
        container_get, bind, emit, ret, throw, call, set_istate,
        lift_outcome.
      cbn. rewrite Hutil. cbn. rewrite Hroute. cbn. rewrite Hsv. cbn.
      rewrite Hauth. reflexivity.
    + simpl_trace. repeat split; reflexivity.
Qed.

(** *** Requests that resolve to nothing *)

(** A remote request for an unknown service, or for a method without
    metadata, fails with NotFound naming the missing key.  Neither reaches
    the security provider, a hook or a handler, and the world of the
    collaborators is untouched. *)
Theorem remote_unresolved :
  (forall req s,
      istate s = Ready ->
      rr_application req = application env ->
      container env !! rr_service req = None ->
      exists s',
        remoteRequest env req s
        = (Throw (NotFound ("Service not found [" +:+ rr_service req
                            +:+ "]")), s')
        /\ auth_calls (trace s') = auth_calls (trace s)
        /\ lifecycle (trace s') = lifecycle (trace s)
        /\ world s' = world s
        /\ state s' = Ready)
  /\ (forall req s sv,
         istate s = Ready ->
         rr_application req = application env ->
         container env !! rr_service req = Some sv ->
         methods (Metadata env) !! (rr_service req +:+ "." +:+ rr_method req)
         = None ->
         exists s',
           remoteRequest env req s
           = (Throw (NotFound ("Method not found ["
                               +:+ (rr_service req +:+ "." +:+ rr_method req)
                               +:+ "]")), s')
           /\ auth_calls (trace s') = auth_calls (trace s)
           /\ lifecycle (trace s') = lifecycle (trace s)
           /\ world s' = world s
           /\ state s' = Ready).
Proof.
  split.
  - intros req s Hready Happ Hsv. eexists. split.
    + apply entry_run; [assumption |].
      unfold remote_resolve, throw_logged, log_error, log_debug,
        container_get, bind, emit, ret, throw.
      cbn. rewrite bool_decide_false by (intros H; now apply H).
      cbn. rewrite Hsv. reflexivity.
    + simpl_trace. repeat split; reflexivity.
  - intros req s sv Hready Happ Hsv Hmd. eexists. split.
    + apply entry_run; [assumption |].
      unfold remote_resolve, throw_logged, log_error, log_debug,
        container_get, bind, emit, ret, throw.
      cbn. rewrite bool_decide_false by (intros H; now apply H).
      cbn. rewrite Hsv, Hmd. reflexivity.
    + simpl_trace. repeat split; reflexivity.
Qed.

(** An HTTP request with no route under its key fails with NotFound
    before any container lookup; with a route
    whose service is not in the container it fails with NotFound naming the
    [service] field of the request as the caller sent it, not the service
    of the route.  Neither reaches the security provider. *)
Theorem http_unresolved :
  (forall req s req1,
      istate s = Ready ->
      httpUtilsRequest env (http_set_type "http" req) = Return req1 ->
      routes (Metadata env) !! http_route req1 = None ->
      exists s',
        httpRequest env req s
        = (Throw (NotFound ("Route not found [" +:+ http_route req1
                            +:+ "]")), s')
        /\ lookups (trace s') = lookups (trace s)
        /\ auth_calls (trace s') = auth_calls (trace s)
        /\ lifecycle (trace s') = lifecycle (trace s)
        /\ state s' = Ready)
  /\ (forall req s req1 target,
         istate s = Ready ->
         httpUtilsRequest env (http_set_type "http" req) = Return req1 ->
         routes (Metadata env) !! http_route req1 = Some target ->
         container env !! rt_service target = None ->
         exists s',
           httpRequest env req s
           = (Throw (NotFound ("Service not found ["
                               +:+ js_str (hr_service req1) +:+ "]")), s')
           /\ lookups (trace s') = lookups (trace s) ++ [rt_service target]
           /\ auth_calls (trace s') = auth_calls (trace s)
           /\ lifecycle (trace s') = lifecycle (trace s)
           /\ state s' = Ready).
Proof.
  split.
  - intros req s req1 Hready Hutil Hroute. eexists. split.
    + apply entry_run; [assumption |].
      unfold http_resolve, throw_logged, log_error, log_debug,
        container_get, bind, emit, ret, throw, lift_outcome.
      cbn. rewrite Hutil. cbn. rewrite Hroute. reflexivity.
    + simpl_trace. repeat split; reflexivity.
  - intros req s req1 target Hready Hutil Hroute Hsv. eexists. split.
    + apply entry_run; [assumption |].
      unfold http_resolve, throw_logged, log_error, log_debug,
        container_get, bind, emit, ret, throw, lift_outcome.
      cbn. rewrite Hutil. cbn. rewrite Hroute. cbn. rewrite Hsv. reflexivity.
    + simpl_trace. repeat split; reflexivity.
Qed.

(** *** The activation loop *)

Lemma activate_service_return sid ctx s s' :
  activate_service env sid ctx s = (Return tt, s') ->
  is_Some (container env !! sid)
  /\ lifecycle (trace s')
     = lifecycle (trace s)
       ++ (if has_activate env sid then [ActivateHook sid] else [])
  /\ logged_errors (trace s') = logged_errors (trace s).
Proof.
  unfold activate_service, has_activate, container_get, bind, try_catch, emit,
    ret, call, throw, log_error_msg, log_error.
  cbn.
  destruct (container env !! sid) as [sv |]; cbn; [| discriminate].
  destruct (sv_activate sv) as [hook |]; cbn.
  - destruct (hook ctx (world s)) as [[[] | e] w]; cbn; [| discriminate].
    intros H. injection H as <-. simpl_trace. eauto.
  - intros H. injection H as <-. simpl_trace. eauto.
Qed.

Lemma activate_service_throw sid ctx s e s' :
  activate_service env sid ctx s = (Throw e, s') ->
  lifecycle (trace s')
  = lifecycle (trace s)
    ++ (if has_activate env sid then [ActivateHook sid] else [])
  /\ logged_errors (trace s') = logged_errors (trace s) ++ [e].
Proof.
  unfold activate_service, has_activate, container_get, bind, try_catch, emit,
    ret, call, throw, log_error_msg, log_error.
  cbn.
  destruct (container env !! sid) as [sv |]; cbn.
  - destruct (sv_activate sv) as [hook |]; cbn; [| discriminate].
    destruct (hook ctx (world s)) as [[[] | e0] w]; cbn; [discriminate |].
    intros H. injection H as <- <-. simpl_trace. eauto.
  - intros H. injection H as <- <-. simpl_trace. eauto.
Qed.

Lemma activate_loop_return sids ctx s s' :
  activate_loop env sids ctx s = (Return tt, s') ->
  Forall (fun sid => is_Some (container env !! sid)) sids
  /\ lifecycle (trace s')
     = lifecycle (trace s)
       ++ map ActivateHook (List.filter (has_activate env) sids)
  /\ logged_errors (trace s') = logged_errors (trace s).
Proof.
  revert s. induction sids as [| sid rest IH]; intros s; cbn.
  - intros H. injection H as <-. rewrite app_nil_r. auto.
  - unfold bind at 1.
    destruct (activate_service env sid ctx s) as [[[] | e] s1] eqn:Hstep;
      [| discriminate].
    intros Hrest.
    destruct (activate_service_return _ _ _ _ Hstep) as (Hin & Hlife & Hlog).
    destruct (IH _ Hrest) as (Hall & Hlife' & Hlog').
    split; [now constructor |].
    rewrite Hlife', Hlife, Hlog', Hlog, <- app_assoc.
    split; [| reflexivity].
    now destruct (has_activate env sid).
Qed.

(** The loop stops at the service whose activation throws. *)
Lemma activate_loop_stop pre sid post ctx s s1 e s2 :
  activate_loop env pre ctx s = (Return tt, s1) ->
  activate_service env sid ctx s1 = (Throw e, s2) ->
  activate_loop env (pre ++ sid :: post) ctx s = (Throw e, s2).
Proof.
  revert s. induction pre as [| p pre IH]; intros s Hpre Hstep.
  - injection Hpre as <-. cbn. now apply bind_throw.
  - cbn in *. unfold bind at 1 in Hpre. unfold bind at 1.
    destruct (activate_service env p ctx s) as [[[] | e0] s0];
      [| discriminate].
    now apply IH.
Qed.

(** Activation is fail-fast: when the hook of one service throws (or the
    service is not in the container), [activate] throws that error at once.
    The hooks of the services before it have run, those of the services
    after it are not called, and the error has been logged once by
    [activate]. *)
Theorem activation_fail_fast pre sid post ctx s s1 e s2 :
  services (Metadata env) = pre ++ sid :: post ->
  activate_loop env pre ctx s = (Return tt, s1) ->
  activate_service env sid ctx s1 = (Throw e, s2) ->
  activate env ctx s = (Throw e, s2)
  /\ lifecycle (trace s2)
     = lifecycle (trace s)
       ++ map ActivateHook (List.filter (has_activate env) pre)
       ++ (if has_activate env sid then [ActivateHook sid] else [])
  /\ logged_errors (trace s2) = logged_errors (trace s) ++ [e].
Proof.
  intros Hservices Hpre Hstep.
  destruct (activate_loop_return _ _ _ _ Hpre) as (_ & Hlife1 & Hlog1).
  destruct (activate_service_throw _ _ _ _ _ Hstep) as (Hlife2 & Hlog2).
  split.
  - unfold activate. rewrite Hservices.
    apply bind_throw. now apply activate_loop_stop with (s1 := s1).
  - rewrite Hlife2, Hlife1, Hlog2, Hlog1, <- app_assoc. split; reflexivity.
Qed.

(** A returning [activate] is a returning loop. *)
Lemma activate_return ctx s c s' :
  activate env ctx s = (Return c, s') ->
  c = ctx
  /\ activate_loop env (services (Metadata env)) ctx s = (Return tt, s').
Proof.
  unfold activate, bind.
  destruct (activate_loop env (services (Metadata env)) ctx s)
    as [[[] | e] s1]; [| discriminate].
  intros H. now injection H as <- <-.
Qed.

(** When [activate] returns it hands back the context it was given, every
    registered service was found in the container, the [activate] hooks of
    all services that have one were called in registration order, and no
    error was logged. *)
Theorem activation_success ctx s c s' :
  activate env ctx s = (Return c, s') ->
  c = ctx
  /\ Forall (fun sid => is_Some (container env !! sid))
       (services (Metadata env))
  /\ lifecycle (trace s')
     = lifecycle (trace s) ++ map ActivateHook (activate_hooks env)
  /\ logged_errors (trace s') = logged_errors (trace s).
Proof.
  intros Hrun.
  destruct (activate_return _ _ _ _ Hrun) as [-> Hloop].
  split; [reflexivity |].
  exact (activate_loop_return _ _ _ _ Hloop).
Qed.

(** The hooks a returning [activate] has called. *)
Lemma activate_lifecycle ctx s c s' :
  activate env ctx s = (Return c, s') ->
  lifecycle (trace s')
  = lifecycle (trace s) ++ map ActivateHook (activate_hooks env).
Proof.
  intros Hrun. destruct (activate_return _ _ _ _ Hrun) as [_ Hloop].
  now destruct (activate_loop_return _ _ _ _ Hloop) as (_ & Hlife & _).
Qed.

(** *** Hooks and handler in order *)

Lemma release_service_lifecycle sid ctx s :
  lifecycle (trace (snd (release_service env sid ctx s)))
  = lifecycle (trace s)
    ++ (if has_release env sid then [ReleaseHook sid] else []).
Proof.
  unfold release_service, has_release, container_get, log_error_msg,
    log_error, bind, try_catch, emit, ret, call, throw.
  cbn [fst snd].
  destruct (container env !! sid) as [sv |]; cbn [fst snd].
  - destruct (sv_release sv) as [hook |]; cbn [fst snd world].
    + destruct (hook ctx (world s)) as [[[] | e] w];
        cbn [fst snd]; simpl_trace; reflexivity.
    + simpl_trace. reflexivity.
  - simpl_trace. reflexivity.
Qed.

Lemma release_loop_lifecycle sids ctx s :
  lifecycle (trace (snd (release_loop env sids ctx s)))
  = lifecycle (trace s)
    ++ map ReleaseHook (List.filter (has_release env) sids).
Proof.
  revert s. induction sids as [| sid rest IH]; intros s; cbn.
  - now rewrite app_nil_r.
  - destruct (release_service_spec env sid ctx s) as (s1 & Hrun & _).
    pose proof (release_service_lifecycle sid ctx s) as Hstep.
    rewrite Hrun in Hstep. cbn in Hstep.
    rewrite (bind_return _ _ _ _ _ Hrun), IH, Hstep, <- app_assoc.
    now destruct (has_release env sid).
Qed.

(** The [finally] block of a request adds the release hooks and nothing
    else to the hook and handler calls. *)
Lemma finally_lifecycle label ctx s s' :
  bind (log_timeEnd label) (fun _ => release env ctx) s = (Return tt, s') ->
  lifecycle (trace s')
  = lifecycle (trace s) ++ map ReleaseHook (release_hooks env).
Proof.
  unfold bind, log_timeEnd, emit. intros Hrun.
  match type of Hrun with
  | release env ctx ?s1 = _ =>
      pose proof (release_loop_lifecycle (services (Metadata env)) ctx s1)
        as Hlife
  end.
  unfold release in Hrun. rewrite Hrun in Hlife. cbn [snd] in Hlife.
  rewrite Hlife. simpl_trace. reflexivity.
Qed.

Lemma invoke_return service method handler args (s : State) v s' :
  invoke service method handler args s = (Return v, s') ->
  lifecycle (trace s') = lifecycle (trace s) ++ [Invoke service method].
Proof.
  unfold invoke. destruct handler as [h |]; [| discriminate].
  unfold bind, emit, call. cbn.
  destruct (h args (world s)) as [[v' | e] w]; [| discriminate].
  intros H. injection H as <- <-. simpl_trace. reflexivity.
Qed.

Lemma remote_resolve_lifecycle req :
  preserves (fun s => lifecycle (trace s)) (remote_resolve env req).
Proof.
  unfold remote_resolve, throw_logged, log_error, log_debug, container_get.
  cbv zeta. keep.
Qed.

(** Within a remote request that returns, the calls come in the order
    activate hooks (registration order), handler, release hooks
    (registration order), each hook once and the handler once. *)
Theorem remote_lifecycle_order req s service metadata ctx s1 v s2 :
  istate s = Ready ->
  remote_resolve env req (reserved s)
  = (Return (service, metadata, ctx), s1) ->
  remote_body env req service metadata ctx s1 = (Return v, s2) ->
  exists s',
    remoteRequest env req s = (Return v, s')
    /\ lifecycle (trace s')
       = lifecycle (trace s)
         ++ map ActivateHook (activate_hooks env)
         ++ [Invoke (rr_service req) (mm_name metadata)]
         ++ map ReleaseHook (release_hooks env).
Proof.
  intros Hready Hres Hbody.
  pose proof (preserves_run _ _ _ _ _ (remote_resolve_lifecycle req) Hres)
    as Hlife1.
  cbn in Hlife1.
  assert (Hlife2 : lifecycle (trace s2)
                   = lifecycle (trace s1)
                     ++ map ActivateHook (activate_hooks env)
                     ++ [Invoke (rr_service req) (mm_name metadata)]).
  { revert Hbody. unfold remote_body. unfold bind at 1.
    destruct (activate env ctx s1) as [[c | e] sa] eqn:Hact; [| discriminate].
    intros Hinvoke.
    pose proof (activate_lifecycle _ _ _ _ Hact) as Ha.
    rewrite (invoke_return _ _ _ _ _ _ _ Hinvoke), Ha.
    now rewrite <- app_assoc. }
  destruct (finally_release env (mm_name metadata) ctx s2) as (s3 & Hfin & _).
  pose proof (finally_lifecycle _ _ _ _ Hfin) as Hlife3.
  eexists. split.
  - apply entry_run; [assumption |].
    rewrite (bind_return _ _ _ _ _ Hres). cbv beta iota.
    unfold remote_invoke, try_catch_finally.
    apply try_finally_run with (s' := s2); [| exact Hfin].
    now apply try_catch_return.
  - cbn [trace]. rewrite Hlife3, Hlife2, Hlife1.
    now rewrite <- !app_assoc.
Qed.

(** *** A registered service that the container does not hold *)

Lemma activate_unresolvable sid :
  sid ∈ services (Metadata env) ->
  container env !! sid = None ->
  forall ctx s, exists e s',
    activate env ctx s = (Throw e, s') /\ ev_result s' = ev_result s.
Proof.
  intros Hin Hnone ctx s.
  destruct (activate env ctx s) as [[c | e] s'] eqn:Hact.
  - destruct (activate_return _ _ _ _ Hact) as [_ Hloop].
    destruct (activate_loop_return _ _ _ _ Hloop) as (Hall & _).
    rewrite Forall_forall in Hall. specialize (Hall sid Hin).
    rewrite Hnone in Hall. now destruct Hall.
  - exists e, s'. split; [reflexivity |].
    exact (preserves_run _ _ _ _ _ (activate_result env ctx) Hact).
Qed.

Lemma event_target_never_ok route target s :
  (forall ctx s, exists e s',
      activate env ctx s = (Throw e, s') /\ ev_result s' = ev_result s) ->
  status (ev_result s) <> Some OK ->
  status (ev_result (snd (event_target env route target s))) <> Some OK.
Proof.
  intros Hact Hs. unfold event_target. unfold bind at 1.
  destruct (event_resolve env route target s) as [[[[sv ctx] |] | e] s1]
    eqn:Hres; cbn [snd];
    pose proof (preserves_run _ _ _ _ _
                  (event_resolve_result env route target) Hres) as Hr.
  - destruct (Hact ctx s1) as (e & sa & Ha & Hra).
    destruct (run_target_throw env target sv ctx s1 e sa) as
      (s' & Hrun & _ & _ & _ & _ & Hres').
    { unfold target_body. now apply bind_throw. }
    rewrite Hrun. cbn [snd]. rewrite Hres'. cbn. discriminate.
  - unfold ret. cbn [snd]. now rewrite Hr.
  - now rewrite Hr.
Qed.

Lemma event_loop_never_ok route metadatas s :
  (forall ctx s, exists e s',
      activate env ctx s = (Throw e, s') /\ ev_result s' = ev_result s) ->
  status (ev_result s) <> Some OK ->
  status (ev_result (snd (event_loop env route metadatas s))) <> Some OK.
Proof.
  intros Hact. revert s.
  induction metadatas as [| target rest IH]; intros s Hs; cbn.
  - assumption.
  - pose proof (event_target_never_ok route target s Hact Hs) as Hstep.
    unfold bind.
    destruct (event_target env route target s) as [[[] | e] s1];
      cbn [snd] in *.
    + now apply IH.
    + assumption.
Qed.

(** When a service id is registered in the metadata but the container
    holds no instance for it, activation throws for every context; so
    every remote and every HTTP request is rejected, and no event result
    ever has status OK. *)
Theorem unresolvable_service_blocks_requests sid :
  sid ∈ services (Metadata env) ->
  container env !! sid = None ->
  (forall ctx s, exists e, fst (activate env ctx s) = Throw e)
  /\ (forall req s, exists e, fst (remoteRequest env req s) = Throw e)
  /\ (forall req s, exists e, fst (httpRequest env req s) = Throw e)
  /\ (forall req s r s',
         eventRequest env req s = (Return r, s') -> status r <> Some OK).
Proof.
  intros Hin Hnone.
  pose proof (activate_unresolvable sid Hin Hnone) as Hact.
  split; [| split; [| split]].
  - intros ctx s. destruct (Hact ctx s) as (e & s' & Hrun & _).
    exists e. now rewrite Hrun.
  - intros req s.
    destruct (decide (istate s = Ready)) as [Hready | Hbusy].
    + destruct (remote_resolve env req (reserved s))
        as [[[[sv md] ctx] | e] s1] eqn:Hres.
      * destruct (Hact ctx s1) as (e & sa & Ha & _).
        exists e.
        apply (remote_outcome env req s sv md ctx s1 (Throw e) sa);
          [assumption | assumption |].
        unfold remote_body. now apply bind_throw.
      * exists e. unfold remoteRequest.
        apply (request_outcome _ s (Throw e) s1); [assumption |].
        now apply bind_throw.
    + eexists. unfold remoteRequest.
      now rewrite guard_ready_fail by assumption.
  - intros req s.
    destruct (decide (istate s = Ready)) as [Hready | Hbusy].
    + destruct (http_resolve env req (reserved s))
        as [[[[[[[route target] sv] [m |]] req'] ctx] | e] s1] eqn:Hres.
      * destruct (Hact ctx s1) as (e & sa & Ha & _).
        exists (wrap env e).
        rewrite (http_body_outcome env req s route target sv m req' ctx s1
                   (Throw e) sa Hready Hres); [reflexivity |].
        unfold http_body, http_call.
        apply bind_throw. now apply bind_throw.
      * eexists. unfold httpRequest.
        apply (request_outcome _ s _
                 (snd (http_invoke env route target sv None ctx req' s1)));
          [assumption |].
        rewrite (bind_return _ _ _ _ _ Hres). cbv beta iota.
        unfold http_invoke, try_catch_finally, try_finally.
        destruct (try_catch _ _ s1) as [o s2].
        unfold bind at 1. unfold throw. reflexivity.
      * exists e. unfold httpRequest.
        apply (request_outcome _ s (Throw e) s1); [assumption |].
        now apply bind_throw.
    + eexists. unfold httpRequest.
      now rewrite guard_ready_fail by assumption.
  - intros req s r s' Hrun.
    destruct (decide (istate s = Ready)) as [Hready | Hbusy].
    + unfold eventRequest in Hrun.
      rewrite guard_ready_pass in Hrun by assumption.
      unfold bind at 1 in Hrun. unfold set_istate at 1 in Hrun.
      cbn [fst snd] in Hrun. unfold try_finally in Hrun.
      match type of Hrun with
      | context [bind (event_init env req) ?k ?s0] =>
          destruct (bind (event_init env req) k s0) as [o s2] eqn:Hbody
      end.
      unfold set_istate in Hrun. cbn in Hrun.
      injection Hrun as -> _.
      unfold bind at 1 in Hbody.
      destruct (event_init env req _) as [[[route metadatas] | e] s0]
        eqn:Hinit; [| discriminate].
      destruct (event_init_spec env _ _ _ _ _ Hinit) as (_ & _ & Hnew).
      pose proof (event_loop_never_ok route metadatas s0 Hact) as Hloop.
      rewrite Hnew in Hloop. specialize (Hloop ltac:(discriminate)).
      cbv beta iota in Hbody. unfold bind at 1 in Hbody.
      destruct (event_loop env route metadatas s0) as [[[] | e] s1];
        [| discriminate].
      cbn [snd] in Hloop.
      unfold bind, modify_result, get_result in Hbody. cbn in Hbody.
      injection Hbody as <- _.
      unfold default_status.
      destruct (status (ev_result s1)) as [st |] eqn:Hst.
      * now rewrite Hst.
      * cbn. discriminate.
    + unfold eventRequest in Hrun.
      rewrite guard_ready_fail in Hrun by assumption. discriminate.
Qed.

(** *** A route whose method has no metadata *)

Lemma http_body_no_metadata {X} (f : State -> X) route target service ctx req :
  preserves f (activate env ctx) ->
  (forall entry, preserves f (emit (Log entry))) ->
  preserves f
    (try_catch (http_body env route target service None ctx req)
       (fun e => bind (log_error e) (fun _ => throw (wrap env e)))).
Proof.
  intros Hact Hemit.
  apply preserves_try_catch.
  - unfold http_body, http_call, log_debug.
    apply preserves_bind.
    + apply preserves_bind; [exact Hact | intros _].
      apply preserves_bind; [apply Hemit | intros _].
      apply preserves_bind; [apply Hemit | intros _].
      apply preserves_throw.
    + intros [[m h] v].
      apply preserves_bind; [apply preserves_lift | intros result].
      apply preserves_bind; [apply Hemit | intros _].
      apply preserves_ret.
  - intros e. unfold log_error.
    apply preserves_bind; [| intros _; apply preserves_throw].
    apply preserves_bind; [apply Hemit | intros _].
    apply preserves_ret.
Qed.

(** When the route and its service resolve but the method has no entry in
    [Metadata.methods], the request is rejected with the TypeError of
    [method.name] in the [finally] block, not wrapped; the handler is
    never called, and no release hook runs although activation was
    attempted: the hooks called are those [activate] calls on the store
    left by the route resolution.  The instance still returns to Ready. *)
Theorem http_without_method_metadata req s route target service req' ctx s1 :
  istate s = Ready ->
  http_resolve env req (reserved s)
  = (Return (route, target, service, None, req', ctx), s1) ->
  exists s',
    httpRequest env req s
    = (Throw (TypeError "Cannot read property name"), s')
    /\ released (trace s') = released (trace s)
    /\ invocations (trace s') = invocations (trace s)
    /\ state s' = Ready
    /\ lifecycle (trace s') = lifecycle (trace (snd (activate env ctx s1))).
Proof.
  intros Hready Hres.
  assert (Hrel1 : released (trace s1) = released (trace s))
    by exact (preserves_run _ _ _ _ _ (http_resolve_released env req) Hres).
  assert (Hinv1 : invocations (trace s1) = invocations (trace s))
    by exact (preserves_run _ _ _ _ _ (http_resolve_invocations env req) Hres).
  destruct (try_catch (http_body env route target service None ctx req')
              (fun e => bind (log_error e) (fun _ => throw (wrap env e))) s1)
    as [o s2] eqn:Hbody.
  assert (Hlog : forall entry,
             preserves (fun s : State => released (trace s))
               (emit (Log entry))
             /\ preserves (fun s : State => invocations (trace s))
                  (emit (Log entry))).
  { intros entry.
    split; apply preserves_emit; intros tr; simpl_trace; reflexivity. }
  assert (Hrel2 : released (trace s2) = released (trace s1)).
  { apply (preserves_run (fun s => released (trace s)) _ _ _ _
             (http_body_no_metadata _ route target service ctx req'
                (activate_released env ctx)
                (fun entry => proj1 (Hlog entry))) Hbody). }
  assert (Hinv2 : invocations (trace s2) = invocations (trace s1)).
  { apply (preserves_run (fun s => invocations (trace s)) _ _ _ _
             (http_body_no_metadata _ route target service ctx req'
                (activate_invocations env ctx)
                (fun entry => proj2 (Hlog entry))) Hbody). }
  assert (Hlife : lifecycle (trace s2)
                  = lifecycle (trace (snd (activate env ctx s1)))).
  { revert Hbody.
    unfold try_catch, http_body, http_call, log_debug, log_error.
    unfold bind, emit, throw, ret. cbv beta.
    destruct (activate env ctx s1) as [[c | e] sa]; cbn [fst snd];
      intros H; injection H as _ <-; simpl_trace; reflexivity. }
  eexists. split; [| split; [| split; [| split]]].
  - apply entry_run; [assumption |].
    rewrite (bind_return _ _ _ _ _ Hres). cbv beta iota.
    unfold http_invoke, try_catch_finally, try_finally.
    rewrite Hbody. unfold bind, throw. reflexivity.
  - cbn [trace]. now rewrite Hrel2.
  - cbn [trace]. now rewrite Hinv2.
  - reflexivity.
  - cbn [trace]. exact Hlife.
Qed.

(** *** One activation and one release around the records of a target *)

Lemma invoke_event_return target service ctx req (s : State) v s' :
  invoke_event target service ctx req s = (Return v, s') ->
  lifecycle (trace s')
  = lifecycle (trace s) ++ [Invoke (em_service target) (em_method target)].
Proof.
  unfold invoke_event.
  destruct (em_adapter target) as [adapter |].
  - destruct (sv_method service (em_method target)) as [h |];
      [| discriminate].
    unfold bind, emit, call. cbn [fst snd world].
    destruct (adapter h ctx req (world s)) as [[v' | e] w]; [| discriminate].
    intros H. injection H as <- <-. simpl_trace. reflexivity.
  - apply invoke_return.
Qed.

Lemma record_loop_lifecycle (target : EventMetadata) service ctx records
    (s : State) s' :
  record_loop target service ctx records s = (Return tt, s') ->
  lifecycle (trace s')
  = lifecycle (trace s)
    ++ replicate (length records)
         (Invoke (em_service target) (em_method target)).
Proof.
  revert s. induction records as [| record rest IH]; intros s; cbn.
  - unfold ret. intros H. injection H as <-. now rewrite app_nil_r.
  - unfold bind at 1.
    destruct (record_call target service ctx record s) as [[data | e] s1]
      eqn:Hcall; [| discriminate].
    unfold bind at 1. unfold modify_result at 1. cbn [fst snd].
    unfold bind at 1. unfold modify_result at 1. cbn [fst snd].
    intros Hrest. rewrite (IH _ Hrest). cbn [trace].
    revert Hcall. unfold record_call, bind, modify_req, get_req.
    cbn [fst snd]. intros Hcall.
    rewrite (invoke_event_return _ _ _ _ _ _ _ Hcall). cbn [trace].
    now rewrite <- app_assoc.
Qed.

(** For a target without an adapter, so that each record is passed to the
    handler itself: when every record is handled, the calls of that target
    are the activate hooks once, the handler once per record, the release
    hooks once, in this order. *)
Theorem event_target_lifecycle target service ctx s s1 :
  em_adapter target = None ->
  target_body env target service ctx s = (Return tt, s1) ->
  exists s',
    run_target env target service ctx s = (Return tt, s')
    /\ lifecycle (trace s')
       = lifecycle (trace s)
         ++ map ActivateHook (activate_hooks env)
         ++ replicate (length (er_records (ev_req s)))
              (Invoke (em_service target) (em_method target))
         ++ map ReleaseHook (release_hooks env).
Proof.
  intros _ Hbody.
  assert (Hlife1 : lifecycle (trace s1)
                   = lifecycle (trace s)
                     ++ map ActivateHook (activate_hooks env)
                     ++ replicate (length (er_records (ev_req s)))
                          (Invoke (em_service target) (em_method target))).
  { revert Hbody. unfold target_body. unfold bind at 1.
    destruct (activate env ctx s) as [[c | e] sa] eqn:Hact; [| discriminate].
    unfold bind, get_req. cbn [fst snd]. intros Hloop.
    pose proof (activate_lifecycle _ _ _ _ Hact) as Ha.
    rewrite (record_loop_lifecycle _ _ _ _ _ _ Hloop), Ha.
    rewrite (preserves_run _ _ _ _ _ (activate_req env ctx) Hact).
    now rewrite <- app_assoc. }
  destruct (finally_release env (em_method target) ctx s1) as (s2 & Hfin & _).
  pose proof (finally_lifecycle _ _ _ _ Hfin) as Hlife2.
  exists s2. split.
  - unfold run_target, try_catch_finally.
    apply try_finally_run with (s' := s1); [| exact Hfin].
    now apply try_catch_return.
  - rewrite Hlife2, Hlife1. now rewrite <- !app_assoc.
Qed.

(** *** The Token header *)

(** When the token is injected into a response, reading
    [headers.Token] back gives the token; the other headers and the other
    properties of the response are as the handler left them. *)
Theorem token_header_round_trip tok v v' :
  set_token_header tok v = Return v' ->
  exists headers,
    get_field v' "headers" = Return (VObj headers)
    /\ obj_get headers "Token" = VStr tok
    /\ (forall k old,
           k <> "Token" ->
           get_field v "headers" = Return (VObj old) ->
           obj_get headers k = obj_get old k)
    /\ (forall k, k <> "headers" -> get_field v' k = get_field v k).
Proof.
  intros Hset.
  pose proof (set_token_header_fields tok v v') as Hother.
  unfold set_token_header in Hset.
  destruct v as [| | b | n | str | fields]; cbn in Hset; try discriminate.
  destruct (truthy (obj_get fields "headers")) eqn:Htruthy.
  - destruct (obj_get fields "headers") as [| | b | n | str | hs] eqn:Hhs;
      cbn in Hset; try discriminate.
    injection Hset as <-.
    exists (obj_set hs "Token" (VStr tok)). split; [| split; [| split]].
    + cbn. now rewrite obj_get_set_eq.
    + apply obj_get_set_eq.
    + intros k old Hk Hold. cbn in Hold. rewrite Hhs in Hold.
      injection Hold as <-. now apply obj_get_set_ne.
    + intros k Hk. apply Hother; [| assumption].
      unfold set_token_header. cbn. rewrite Hhs. reflexivity.
  - cbn in Hset. injection Hset as <-.
    exists [("Token", VStr tok)]. split; [| split; [| split]].
    + cbn. now rewrite obj_get_set_eq.
    + reflexivity.
    + intros k old Hk Hold. cbn in Hold. injection Hold as Hold.
      rewrite Hold in Htruthy. discriminate.
    + intros k Hk. apply Hother; [| assumption].
      unfold set_token_header. cbn. rewrite Htruthy. reflexivity.
Qed.

(** *** What an event result echoes *)

Lemma eventRequest_inv req s r s' :
  eventRequest env req s = (Return r, s') ->
  istate s = Ready
  /\ exists route metadatas s0 s1,
      event_init env req (reserved s) = (Return (route, metadatas), s0)
      /\ event_loop env route metadatas s0 = (Return tt, s1)
      /\ r = default_status NOP (ev_result s1).
Proof.
  intros Hrun.
  destruct (decide (istate s = Ready)) as [Hready | Hbusy].
  - split; [assumption |].
    unfold eventRequest in Hrun.
    rewrite guard_ready_pass in Hrun by assumption.
    unfold bind at 1 in Hrun. unfold set_istate at 1 in Hrun.
    cbn [fst snd] in Hrun. unfold try_finally in Hrun.
    match type of Hrun with
    | context [bind (event_init env req) ?k ?s0] =>
        destruct (bind (event_init env req) k s0) as [o s2] eqn:Hbody
    end.
    unfold set_istate in Hrun. cbn in Hrun.
    injection Hrun as -> _.
    unfold bind at 1 in Hbody.
    destruct (event_init env req _) as [[[route metadatas] | e] s0]
      eqn:Hinit; [| discriminate].
    cbv beta iota in Hbody. unfold bind at 1 in Hbody.
    destruct (event_loop env route metadatas s0) as [[[] | e] s1] eqn:Hloop;
      [| discriminate].
    unfold bind, modify_result, get_result in Hbody. cbn in Hbody.
    injection Hbody as <- _.
    exists route, metadatas, s0, s1. repeat split; assumption.
  - unfold eventRequest in Hrun.
    rewrite guard_ready_fail in Hrun by assumption. discriminate.
Qed.

Lemma preserves_compose {A X Y} (f : State -> X) (g : X -> Y) (m : M A) :
  preserves f m -> preserves (fun s => g (f s)) m.
Proof. intros H s. now rewrite (H s). Qed.

Lemma record_loop_header (target : EventMetadata) service ctx records :
  preserves (fun s : State => result_header (ev_result s))
    (record_loop target service ctx records).
Proof.
  induction records as [| record rest IH]; cbn [record_loop].
  - apply preserves_ret.
  - apply preserves_bind.
    + apply (preserves_compose ev_result result_header).
      apply record_call_result.
    + intros data. apply preserves_bind.
      * intros s. unfold modify_result, default_status. cbn.
        now destruct (status (ev_result s)).
      * intros _. apply preserves_bind; [intros s; reflexivity |].
        intros _. exact IH.
Qed.

Lemma run_target_header target service ctx s :
  result_header (ev_result (snd (run_target env target service ctx s)))
  = result_header (ev_result s).
Proof.
  destruct (target_body env target service ctx s) as [o s1] eqn:Hbody.
  destruct (run_target_result env _ _ _ _ _ _ Hbody) as (s' & Hrun & Hres).
  rewrite Hrun. cbn [snd]. rewrite Hres.
  assert (Hs1 : result_header (ev_result s1) = result_header (ev_result s)).
  { refine (preserves_run (fun s => result_header (ev_result s))
              _ _ _ _ _ Hbody).
    unfold target_body.
    apply preserves_bind.
    - apply (preserves_compose ev_result result_header).
      apply activate_result.
    - intros _. apply preserves_bind; [intros ?; reflexivity |].
      intros q. apply record_loop_header. }
  destruct o as [[] | e]; [assumption |].
  rewrite <- Hs1. reflexivity.
Qed.

Lemma event_loop_header route metadatas :
  preserves (fun s : State => result_header (ev_result s))
    (event_loop env route metadatas).
Proof.
  induction metadatas as [| target rest IH]; cbn [event_loop].
  - apply preserves_ret.
  - apply preserves_bind; [| intros _; exact IH].
    unfold event_target. apply preserves_bind.
    + apply (preserves_compose ev_result result_header).
      apply event_resolve_result.
    + intros [[service ctx] |]; [| apply preserves_ret].
      intros s. apply run_target_header.
Qed.

(** Whatever the targets do, the source, action, resource and object of
    a returned event result are those of the request. *)
Theorem event_result_echoes_request req s r s' :
  eventRequest env req s = (Return r, s') ->
  result_header r
  = (er_source req, er_action req, er_resource req, er_object req).
Proof.
  intros Hrun.
  destruct (eventRequest_inv _ _ _ _ Hrun)
    as (_ & route & metadatas & s0 & s1 & Hinit & Hloop & ->).
  destruct (event_init_spec env _ _ _ _ _ Hinit) as (_ & _ & Hnew).
  pose proof (preserves_run _ _ _ _ _
                (event_loop_header route metadatas) Hloop) as Hhead.
  cbn beta in Hhead. rewrite Hnew in Hhead.
  transitivity (result_header (ev_result s1)).
  - unfold default_status. now destruct (status (ev_result s1)).
  - rewrite Hhead. reflexivity.
Qed.

(** *** Arguments bound from an HTTP request *)

(** When binding the arguments of a handler succeeds, there is one
    argument per binding, in the order of the bindings: the value of the
    binder where the binding has one, [undefined] where it has none. *)
Theorem bind_args_aligned (bs : list HttpBinding) ctx req (s : State)
    args s' :
  bind_args bs ctx req s = (Return args, s') ->
  length args = length bs
  /\ (forall i b,
         bs !! i = Some b ->
         binder b = None ->
         args !! i = Some (AVal VUndefined))
  /\ (forall i b f,
         bs !! i = Some b ->
         binder b = Some f ->
         exists v, f ctx req = Return v /\ args !! i = Some (AVal v)).
Proof.
  revert s args s'.
  induction bs as [| b rest IH]; intros s args s'; cbn [bind_args].
  - intros H. injection H as <- _. split; [reflexivity |].
    split; [intros i b Hi | intros i b f Hi]; now rewrite lookup_nil in Hi.
  - unfold bind at 1.
    destruct (binder b) as [f |] eqn:Hb.
    + unfold lift_outcome.
      destruct (f ctx req) as [v | e] eqn:Hf; [| discriminate].
      unfold bind at 1.
      destruct (bind_args rest ctx req s) as [[vs | e] s1] eqn:Hrest;
        [| discriminate].
      unfold ret. intros H. injection H as <- _.
      destruct (IH _ _ _ Hrest) as (Hlen & Hundef & Hbound).
      split; [cbn; now rewrite Hlen |].
      split.
      * intros [| i] b' Hi Hnone; cbn in Hi |- *.
        -- injection Hi as <-. congruence.
        -- now apply (Hundef i b').
      * intros [| i] b' f' Hi Hsome; cbn in Hi |- *.
        -- injection Hi as <-. rewrite Hb in Hsome.
           injection Hsome as <-. now exists v.
        -- now apply (Hbound i b').
    + unfold ret at 1. unfold bind at 1.
      destruct (bind_args rest ctx req s) as [[vs | e] s1] eqn:Hrest;
        [| discriminate].
      unfold ret. intros H. injection H as <- _.
      destruct (IH _ _ _ Hrest) as (Hlen & Hundef & Hbound).
      split; [cbn; now rewrite Hlen |].
      split.
      * intros [| i] b' Hi Hnone; cbn in Hi |- *.
        -- reflexivity.
        -- now apply (Hundef i b').
      * intros [| i] b' f' Hi Hsome; cbn in Hi |- *.
        -- injection Hi as <-. congruence.
        -- now apply (Hbound i b').
Qed.

(** *** An event target whose service the container does not hold *)

Lemma event_loop_app route pre post s s1 :
  event_loop env route pre s = (Return tt, s1) ->
  event_loop env route (pre ++ post) s = event_loop env route post s1.
Proof.
  revert s. induction pre as [| target rest IH]; intros s; cbn.
  - unfold ret. intros H. now injection H as <-.
  - unfold bind.
    destruct (event_target env route target s) as [[[] | e] s2];
      [| discriminate].
    apply IH.
Qed.

Lemma event_resolve_missing route target s :
  container env !! em_service target = None ->
  exists s',
    event_resolve env route target s
    = (Throw (NotFound ("Service not found ["
                        +:+ js_str (er_service (ev_req s)) +:+ "]")), s')
    /\ lifecycle (trace s') = lifecycle (trace s)
    /\ auth_calls (trace s') = auth_calls (trace s)
    /\ world s' = world s.
Proof.
  intros Hnone. eexists. split.
  - unfold event_resolve, throw_logged, log_error, container_get, get_req,
      bind, emit, ret, throw.
    cbn. rewrite Hnone. reflexivity.
  - simpl_trace. repeat split; reflexivity.
Qed.

(** An event target whose service is not in the container ends the whole
    request: it is rejected with NotFound, so the entries of the targets
    handled before it are not returned, and no later target is tried.
    The message names the [service] field of the request as the previous
    matching target left it; for the first target that is the field as
    the caller sent it. *)
Theorem event_missing_service req s route pre target post s0 s1 :
  istate s = Ready ->
  event_init env req (reserved s)
  = (Return (route, pre ++ target :: post), s0) ->
  event_loop env route pre s0 = (Return tt, s1) ->
  container env !! em_service target = None ->
  exists s',
    eventRequest env req s
    = (Throw (NotFound ("Service not found ["
                        +:+ js_str (er_service (ev_req s1)) +:+ "]")), s')
    /\ lifecycle (trace s') = lifecycle (trace s1)
    /\ auth_calls (trace s') = auth_calls (trace s1)
    /\ state s' = Ready
    /\ (pre = [] -> er_service (ev_req s1) = er_service req).
Proof.
  intros Hready Hinit Hpre Hnone.
  destruct (event_resolve_missing route target s1 Hnone)
    as (s2 & Hres & Hlife & Hauth & _).
  eexists. split; [| split; [| split; [| split]]].
  - apply entry_run; [assumption |].
    rewrite (bind_return _ _ _ _ _ Hinit). cbv beta iota.
    apply bind_throw.
    rewrite (event_loop_app _ _ _ _ _ Hpre). cbn [event_loop].
    apply bind_throw. unfold event_target. apply bind_throw. exact Hres.
  - exact Hlife.
  - exact Hauth.
  - reflexivity.
  - intros ->. cbn in Hpre. unfold ret in Hpre. injection Hpre as <-.
    destruct (event_init_spec env _ _ _ _ _ Hinit) as (_ & -> & _).
    reflexivity.
Qed.

End DispatchTheory.

(** ** The setup and the edge cases at concrete instances *)

Import Scenario.

Lemma setup_rejected_outside_pending_witness :
  istate (inst_store opened) <> Pending
  /\ prepare (office true core_configuration) opened
     = (Throw (InternalServerError "Invalid container state"), opened).
Proof.
  assert (H : istate (inst_store opened) <> Pending) by discriminate.
  split; [exact H |].
  exact (proj2 (proj2 (setup_rejected_outside_pending
                         (office true core_configuration) opened H))).
Defined.

Lemma prepare_outcome_witness :
  istate (inst_store (snd (prepare (office false core_configuration) fresh)))
  = Ready
  /\ is_Some (inst_config
                (snd (prepare (office false core_configuration) fresh)))
  /\ is_Some (inst_security
                (snd (prepare (office false core_configuration) fresh))).
Proof.
  refine (proj1 (prepare_outcome (office false core_configuration) fresh
                   (Return tt)
                   (snd (prepare (office false core_configuration) fresh))
                   eq_refl _) eq_refl).
  vm_compute. reflexivity.
Defined.

Lemma prepare_configuration_choice_witness :
  inst_config (snd (prepare (office false core_configuration) fresh))
  = Some core_configuration
  /\ exists rest,
      inst_setup (snd (prepare (office false core_configuration) fresh))
      = inst_setup fresh
        ++ [ContainerHas ConfigurationId;
            Warned "Using default configuration service!";
            ContainerSet ConfigurationId;
            ContainerLookup ConfigurationId]
        ++ rest.
Proof.
  pose proof (prepare_configuration_choice (office false core_configuration)
                fresh core_configuration
                (fst (prepare (office false core_configuration) fresh))
                (snd (prepare (office false core_configuration) fresh))
                eq_refl) as H.
  refine (proj2 (H _) 1 2 eq_refl eq_refl eq_refl).
  vm_compute. reflexivity.
Defined.

Lemma prepare_rejects_plain_configuration_witness :
  exists i',
    prepare (office true plain_configuration) fresh
    = (Throw (InternalServerError "Configuration must be a service"), i')
    /\ istate (inst_store i') = Pending
    /\ inst_config i' = Some plain_configuration
    /\ inst_security i' = None.
Proof.
  edestruct (prepare_rejects_plain_configuration
               (office true plain_configuration) fresh)
    as (i' & Hrun & Hstate & Hconfig & Hsecurity & _);
    [reflexivity | vm_compute; reflexivity | vm_compute; reflexivity
    | reflexivity | reflexivity |].
  exists i'. repeat split; assumption.
Defined.

Lemma configured_invariant_witness :
  configured (snd (prepare (office false core_configuration) fresh)).
Proof.
  pose proof (configured_invariant (office false core_configuration))
    as (Hnew & Hprepare & _).
  exact (Hprepare fresh (Hnew "shop" None None 0)).
Defined.

Lemma prepared_instance_serves_witness :
  istate
    (inst_store
       (with_store
          (snd (serve_all shop [RemoteCall hello_call; HttpCall hello_http]
                  (inst_store
                     (snd (prepare (office false core_configuration)
                             fresh)))))
          (snd (prepare (office false core_configuration) fresh))))
  = Ready
  /\ length
       (fst (serve_all shop [RemoteCall hello_call; HttpCall hello_http]
               (inst_store
                  (snd (prepare (office false core_configuration) fresh)))))
     = length [RemoteCall hello_call; HttpCall hello_http].
Proof.
  assert (Hrun : prepare (office false core_configuration) fresh
                 = (Return tt,
                    snd (prepare (office false core_configuration) fresh)))
    by (vm_compute; reflexivity).
  pose proof (prepared_instance_serves (office false core_configuration)
                fresh
                (snd (prepare (office false core_configuration) fresh))
                shop [RemoteCall hello_call; HttpCall hello_http]
                eq_refl Hrun) as H.
  cbv zeta in H.
  split; [exact (proj1 H) | exact (proj1 (proj2 H))].
Defined.

Lemma auth_failure_propagates_witness :
  (exists s',
      remoteRequest shop_locked hello_call ready = (Throw denied, s')
      /\ lifecycle (trace s') = lifecycle (trace ready)
      /\ logged_errors (trace s') = logged_errors (trace ready)
      /\ world s' = 1
      /\ state s' = Ready)
  /\ (exists s',
         httpRequest shop_locked hello_http ready = (Throw denied, s')
         /\ lifecycle (trace s') = lifecycle (trace ready)
         /\ logged_errors (trace s') = logged_errors (trace ready)
         /\ world s' = 1
         /\ state s' = Ready).
Proof.
  pose proof (auth_failure_propagates shop_locked) as (Hremote & Hhttp).
  split.
  - eapply (Hremote hello_call ready);
      [reflexivity | reflexivity | vm_compute; reflexivity
      | vm_compute; reflexivity | reflexivity].
  - eapply (Hhttp hello_http ready);
      [reflexivity | reflexivity | vm_compute; reflexivity
      | vm_compute; reflexivity | reflexivity].
Defined.

Lemma remote_unresolved_witness :
  (exists s',
      remoteRequest shop stranger_call ready
      = (Throw (NotFound ("Service not found [" +:+ rr_service stranger_call
                          +:+ "]")), s')
      /\ auth_calls (trace s') = auth_calls (trace ready)
      /\ lifecycle (trace s') = lifecycle (trace ready)
      /\ world s' = world ready
      /\ state s' = Ready)
  /\ (exists s',
         remoteRequest shop bye_call ready
         = (Throw (NotFound ("Method not found ["
                             +:+ (rr_service bye_call +:+ "."
                                  +:+ rr_method bye_call)
                             +:+ "]")), s')
         /\ auth_calls (trace s') = auth_calls (trace ready)
         /\ lifecycle (trace s') = lifecycle (trace ready)
         /\ world s' = world ready
         /\ state s' = Ready).
Proof.
  pose proof (remote_unresolved shop) as (Hservice & Hmethod).
  split.
  - eapply (Hservice stranger_call ready);
      [reflexivity | reflexivity | vm_compute; reflexivity].
  - eapply (Hmethod bye_call ready);
      [reflexivity | reflexivity | vm_compute; reflexivity
      | vm_compute; reflexivity].
Defined.

Lemma http_unresolved_witness :
  (exists s',
      httpRequest shop (http_get "/lost" None) ready
      = (Throw (NotFound "Route not found [GET /lost]"), s')
      /\ lookups (trace s') = lookups (trace ready)
      /\ state s' = Ready)
  /\ (exists s',
         httpRequest shop_ghost (http_get "/ghost" (Some "caller")) ready
         = (Throw (NotFound "Service not found [caller]"), s')
         /\ lookups (trace s') = lookups (trace ready) ++ ["ghost"]
         /\ state s' = Ready).
Proof.
  pose proof (http_unresolved shop) as (Hroute & _).
  pose proof (http_unresolved shop_ghost) as (_ & Hservice).
  split.
  - edestruct (Hroute (http_get "/lost" None) ready)
      as (s' & Hrun & Hlook & _ & _ & Hstate);
      [reflexivity | reflexivity | vm_compute; reflexivity |].
    exists s'. repeat split; assumption.
  - edestruct (Hservice (http_get "/ghost" (Some "caller")) ready)
      as (s' & Hrun & Hlook & _ & _ & Hstate);
      [reflexivity | reflexivity | vm_compute; reflexivity
      | vm_compute; reflexivity |].
    exists s'. repeat split; assumption.
Defined.

Lemma activation_fail_fast_witness :
  fst (activate shop_connect_fails None ready)
  = Throw (Thrown (VStr "connect failed"))
  /\ lifecycle (trace (snd (activate shop_connect_fails None ready)))
     = [ActivateHook "database"]
  /\ logged_errors (trace (snd (activate shop_connect_fails None ready)))
     = [Thrown (VStr "connect failed")].
Proof.
  edestruct (activation_fail_fast shop_connect_fails [] "database"
               ["greeter"] None ready)
    as (Hrun & Hlife & Hlog);
    [reflexivity | reflexivity | vm_compute; reflexivity |].
  rewrite Hrun. cbn [fst snd]. split; [reflexivity |].
  split; [rewrite Hlife | rewrite Hlog]; vm_compute; reflexivity.
Defined.

Lemma activation_success_witness :
  Forall (fun sid => is_Some (container shop !! sid))
    (services (Metadata shop))
  /\ lifecycle (trace (snd (activate shop None ready)))
     = lifecycle (trace ready) ++ map ActivateHook (activate_hooks shop).
Proof.
  edestruct (activation_success shop None ready)
    as (_ & Hall & Hlife & _); [vm_compute; reflexivity |].
  split; [exact Hall |].
  etransitivity; [| exact Hlife]. vm_compute. reflexivity.
Defined.

Lemma remote_lifecycle_order_witness :
  exists s',
    remoteRequest shop hello_call ready = (Return (VStr "hi"), s')
    /\ lifecycle (trace s')
       = lifecycle (trace ready)
         ++ map ActivateHook (activate_hooks shop)
         ++ [Invoke (rr_service hello_call) (mm_name hello_method)]
         ++ map ReleaseHook (release_hooks shop).
Proof.
  eapply (remote_lifecycle_order shop hello_call ready);
    [reflexivity | vm_compute; reflexivity | vm_compute; reflexivity].
Defined.

Lemma unresolvable_service_blocks_requests_witness :
  (exists e, fst (activate shop_unstaffed None ready) = Throw e)
  /\ (exists e, fst (remoteRequest shop_unstaffed hello_call ready) = Throw e)
  /\ (exists e, fst (httpRequest shop_unstaffed hello_http ready) = Throw e)
  /\ (exists r s',
         eventRequest shop_unstaffed (order_event [VNum 1]) ready
         = (Return r, s')
         /\ status r <> Some OK).
Proof.
  assert (Hin : "ghost" ∈ services (Metadata shop_unstaffed))
    by (right; left).
  assert (Hnone : container shop_unstaffed !! "ghost" = None)
    by (vm_compute; reflexivity).
  pose proof (unresolvable_service_blocks_requests shop_unstaffed "ghost"
                Hin Hnone) as (Hactivate & Hremote & Hhttp & Hevent).
  split; [exact (Hactivate None ready) |].
  split; [exact (Hremote hello_call ready) |].
  split; [exact (Hhttp hello_http ready) |].
  eexists. eexists. split; [vm_compute; reflexivity |].
  eapply (Hevent (order_event [VNum 1]) ready). vm_compute. reflexivity.
Defined.

Lemma http_without_method_metadata_witness :
  exists s',
    httpRequest shop_ghost (http_get "/boom" None) ready
    = (Throw (TypeError "Cannot read property name"), s')
    /\ released (trace s') = released (trace ready)
    /\ invocations (trace s') = invocations (trace ready)
    /\ state s' = Ready
    /\ lifecycle (trace s') = [ActivateHook "database"].
Proof.
  edestruct (http_without_method_metadata shop_ghost
               (http_get "/boom" None) ready)
    as (s' & Hrun & Hreleased & Hinvoked & Hstate & Hlife);
    [reflexivity | vm_compute; reflexivity |].
  exists s'. repeat (split; [assumption |]).
  etransitivity; [exact Hlife |]. vm_compute. reflexivity.
Defined.

Lemma event_target_lifecycle_witness :
  exists s',
    run_target shop_hello (target "hello") greeter None
      (during [VNum 1; VNum 2])
    = (Return tt, s')
    /\ lifecycle (trace s')
       = lifecycle (trace (during [VNum 1; VNum 2]))
         ++ map ActivateHook (activate_hooks shop_hello)
         ++ replicate (length (er_records (ev_req (during [VNum 1; VNum 2]))))
              (Invoke (em_service (target "hello"))
                 (em_method (target "hello")))
         ++ map ReleaseHook (release_hooks shop_hello).
Proof.
  eapply (event_target_lifecycle shop_hello (target "hello") greeter None
            (during [VNum 1; VNum 2]));
    [reflexivity | vm_compute; reflexivity].
Defined.

Lemma token_header_round_trip_witness :
  exists headers,
    get_field
      (VObj [("statusCode", VNum 200);
             ("headers", VObj [("ETag", VStr "abc"); ("Token", VStr "t1")])])
      "headers"
    = Return (VObj headers)
    /\ obj_get headers "Token" = VStr "t1"
    /\ obj_get headers "ETag" = VStr "abc".
Proof.
  edestruct (token_header_round_trip "t1" tagged_response)
    as (headers & Hget & Htoken & Hkeep & _); [vm_compute; reflexivity |].
  exists headers. split; [exact Hget |]. split; [exact Htoken |].
  assert (Hetag : "ETag" <> "Token") by discriminate.
  exact (Hkeep "ETag" [("ETag", VStr "abc")] Hetag eq_refl).
Defined.

Lemma event_result_echoes_request_witness :
  exists r s',
    eventRequest shop_hello_boom (order_event [VNum 1]) ready
    = (Return r, s')
    /\ result_header r = ("queue", "created", "orders", "order-1").
Proof.
  eexists. eexists. split; [vm_compute; reflexivity |].
  etransitivity.
  - eapply (event_result_echoes_request shop_hello_boom
              (order_event [VNum 1]) ready).
    vm_compute. reflexivity.
  - reflexivity.
Defined.

Lemma bind_args_aligned_witness :
  exists args,
    fst (bind_args two_bindings None (http_get "/hello" None) ready)
    = Return args
    /\ length args = length two_bindings
    /\ args !! 0 = Some (AVal VUndefined)
    /\ exists v, args !! 1 = Some (AVal v).
Proof.
  edestruct (bind_args_aligned two_bindings None (http_get "/hello" None)
               ready)
    as (Hlen & Hundef & Hbound); [vm_compute; reflexivity |].
  eexists. split; [vm_compute; reflexivity |].
  split; [exact Hlen |].
  split.
  - exact (Hundef 0 _ eq_refl eq_refl).
  - destruct (Hbound 1 _ _ eq_refl eq_refl) as (v & _ & Hv).
    exists v. exact Hv.
Defined.

Lemma event_missing_service_witness :
  exists s',
    eventRequest shop_ghost (order_event [VNum 1]) ready
    = (Throw (NotFound "Service not found [greeter]"), s')
    /\ invocations (trace s') = [("greeter", "hello")]
    /\ state s' = Ready.
Proof.
  edestruct (event_missing_service shop_ghost (order_event [VNum 1]) ready
               "queue orders" [target "hello"] ghost_target [])
    as (s' & Hrun & _ & _ & Hstate & _);
    [reflexivity | vm_compute; reflexivity | vm_compute; reflexivity
    | vm_compute; reflexivity |].
  exists s'. split; [| split; [| exact Hstate]].
  - etransitivity; [exact Hrun |]. vm_compute. reflexivity.
  - revert Hrun. vm_compute. intros Hrun. injection Hrun as <-. reflexivity.
Defined.
